(** * Shallow embedding of [oemof_b3/tools/data_processing.py]

    A pandas DataFrame is modelled as its ordered list of column names
    together with its rows; a row maps a column name to the Python value of
    that cell.  Reading [df[c][i]] first checks that [c] is a column
    ([KeyError] otherwise).  Tables carry pandas' default [RangeIndex], so a
    row label is its position.  Raised exceptions are the [Err] branch of a
    small error monad; the printed user notices of [df_filtered] are
    returned next to its result.

    Numbers are integers ([Z]); a float NaN is [VNaN] (never equal to
    anything, absorbing in additions); an integer-valued float is the
    integer it holds.  A cell does not record whether pandas stores it as
    an int64, a uint64, a float64 or a Python object; all of them add
    exactly while operands and sum lie within 2^53 in magnitude, and only
    such sums are modelled ([Unrepresented] beyond: int64 sums wrap and
    float64 sums round there).  [np.array], whose dtype follows from the
    elements, is modelled with its float64 rounding.  Timestamps are integers
    (pandas' nanosecond values) and a frequency label is represented by the
    fixed step, in the same unit, that it denotes.  The pandas semantics are
    those of the 1.x versions that still have [DataFrame.append] (from 1.2
    on: comparing an array with a missing value gives False everywhere). *)

From Stdlib Require Import String Ascii List ZArith Bool Lia.
Import ListNotations.
Open Scope string_scope.
Open Scope Z_scope.

(** ** Python values, errors and the error monad *)

(** Elements of a numeric array: a number or NaN. *)
Inductive num : Type :=
| Num (z : Z)
| NaN.

(** Cell values: strings, numbers, lists of numbers (the [series] cells),
    [None], and float NaN / NaT. *)
Inductive value : Type :=
| VStr (s : string)
| VNum (z : Z)
| VSeries (xs : list num)
| VNone
| VNaN.

(** The exceptions raised by the module, one constructor per raise site
    (and the pandas / Python errors that the code lets escape). *)
Inductive error : Type :=
| InvalidSchemaKind (data_type : string)          (* ValueError, get_optional_required_header *)
| UnrecognizedSchema (header_ts header_sc : list string) (* KeyError, df_filtered / df_agg *)
| InvalidFilterKey (key : string) (options : list string)
| InvalidAggregationKey (key : string) (options : list string)
| MissingColumn (key : string)                    (* KeyError "Your data is missing the column" *)
| UnknownVariable (var_name : value)              (* ValueError "Unknown var_name" *)
| MissingRegion                                   (* ValueError "The data is missing the region" *)
| NotTimeIndexed                                  (* TypeError, stack_timeseries *)
| NoFixedFrequency                                (* TypeError, stack_timeseries *)
| TooFewDates                                     (* ValueError of pd.infer_freq *)
| MissingTimeField (name : string)                (* TypeError, check_consistency_timeindex *)
| InconsistentTimeIndex (name : string)           (* ValueError, check_consistency_timeindex *)
| KeyErr (key : string)                           (* KeyError of a column or dict lookup *)
| IndexErr                                        (* IndexError *)
| TypeErr                                         (* TypeError of a Python operator *)
| ShapeErr                                        (* ValueError of numpy / pandas shapes *)
| ZeroFrequency                                   (* ValueError of pd.date_range *)
| Unrepresented.                                  (* no exception: a result the model does not
                                                     represent (a sum beyond 2^53, a wide table
                                                     cell that is not a number, a MultiIndex) *)

Inductive result (A : Type) : Type :=
| Ok (a : A)
| Err (e : error).
Arguments Ok {A} a.
Arguments Err {A} e.

Definition bind {A B} (m : result A) (f : A -> result B) : result B :=
  match m with
  | Ok a => f a
  | Err e => Err e
  end.

Notation "'let*' x ':=' m 'in' f" := (bind m (fun x => f))
  (at level 200, x name, m at level 100, f at level 200).

Fixpoint mapM {A B} (f : A -> result B) (l : list A) : result (list B) :=
  match l with
  | [] => Ok []
  | x :: xs => let* y := f x in let* ys := mapM f xs in Ok (y :: ys)
  end.

(** ** Python operations on values *)

(** [a == b]: NaN and NaT are never equal, [None == None]. *)
Definition num_eq (a b : num) : bool :=
  match a, b with
  | Num x, Num y => Z.eqb x y
  | _, _ => false
  end.

Definition py_eq (a b : value) : bool :=
  match a, b with
  | VStr x, VStr y => String.eqb x y
  | VNum x, VNum y => Z.eqb x y
  | VSeries xs, VSeries ys =>
      Nat.eqb (length xs) (length ys) && forallb (fun p => num_eq (fst p) (snd p)) (combine xs ys)
  | VNone, VNone => true
  | _, _ => false
  end.

(** [x in l] on a list.  Python tests [e is x or e == x] for each element
    [e]; identity implies [==] except for NaN (alone or inside a list), so
    this is exact for an [x] that neither is nor holds NaN.  Values do not
    carry object identities; the theorems that use [in] assume such [x]. *)
Definition py_in (x : value) (l : list value) : bool := existsb (py_eq x) l.

(** Values that neither are nor hold NaN. *)
Definition nan_free (v : value) : bool :=
  match v with
  | VNaN => false
  | VSeries xs => forallb (fun x => match x with NaN => false | Num _ => true end) xs
  | _ => true
  end.

(** The integers every number type of numpy holds and adds exactly. *)
Definition exact_range (z : Z) : bool := Z.abs z <=? 2 ^ 53.

(** [a + b] and [a - b] on numeric cells. *)
Definition py_add (a b : value) : result value :=
  match a, b with
  | VNum x, VNum y =>
      if exact_range x && exact_range y && exact_range (x + y) then Ok (VNum (x + y))
      else Err Unrepresented
  | VNaN, (VNum _ | VNaN) | VNum _, VNaN => Ok VNaN
  | _, _ => Err TypeErr
  end.

Definition py_sub (a b : value) : result value :=
  match a, b with
  | VNum x, VNum y =>
      if exact_range x && exact_range y && exact_range (x - y) then Ok (VNum (x - y))
      else Err Unrepresented
  | VNaN, (VNum _ | VNaN) | VNum _, VNaN => Ok VNaN
  | _, _ => Err TypeErr
  end.

Definition as_str (v : value) : result string :=
  match v with
  | VStr s => Ok s
  | _ => Err TypeErr
  end.

(** [sub in s] on strings. *)
Fixpoint contains (sub s : string) : bool :=
  String.prefix sub s ||
  match s with
  | EmptyString => false
  | String _ s' => contains sub s'
  end.

(** [s.split(sep)] for a one-character separator. *)
Fixpoint split_on (sep : ascii) (s : string) : list string :=
  match s with
  | EmptyString => [EmptyString]
  | String c s' =>
      match split_on sep s' with
      | [] => [String c EmptyString]
      | w :: ws => if Ascii.eqb c sep then EmptyString :: w :: ws else String c w :: ws
      end
  end.

(** [l[i]] on a list. *)
Definition py_index {A} (l : list A) (i : nat) : result A :=
  match nth_error l i with
  | Some x => Ok x
  | None => Err IndexErr
  end.

(** [l.remove(x)]: removes the first occurrence ([ValueError] when absent is
    never reached in this module). *)
Fixpoint remove_first (x : string) (l : list string) : list string :=
  match l with
  | [] => []
  | y :: ys => if String.eqb x y then ys else y :: remove_first x ys
  end.

(** The keys of [dict.fromkeys(l)]: first occurrences, in order.  A key
    equal ([==]) to an earlier one is dropped.  Python also drops a NaN
    that is the very object of an earlier key; every NaN is kept here.
    The difference never shows in [df_agg], the only user: a NaN key
    matches no row ([NaN == NaN] is False) whether it occurs once or more. *)
Fixpoint dedup_aux (seen : list value) (l : list value) : list value :=
  match l with
  | [] => []
  | x :: xs => if py_in x seen then dedup_aux seen xs else x :: dedup_aux (x :: seen) xs
  end.

(** Values Python can hash: a list cannot be a dict key. *)
Definition hashable (v : value) : bool :=
  match v with VSeries _ => false | _ => true end.

(** [list(dict.fromkeys(l))]: [TypeError: unhashable type: 'list'] on a
    list element. *)
Definition dedup (l : list value) : result (list value) :=
  if forallb hashable l then Ok (dedup_aux [] l) else Err TypeErr.

Definition str_in (x : string) (l : list string) : bool := existsb (String.eqb x) l.

(** ** DataFrames *)

Definition row := string -> value.

Record frame := mk_frame { columns : list string; rows : list row }.

(** [df[c][i]] for the row [r] of [df]. *)
Definition cell (df : frame) (c : string) (r : row) : result value :=
  if str_in c (columns df) then Ok (r c) else Err (KeyErr c).

(** [list(df[c])]. *)
Definition column (df : frame) (c : string) : result (list value) :=
  if str_in c (columns df) then Ok (map (fun r => r c) (rows df)) else Err (KeyErr c).

(** Builds a row from its cells, for the tables the code constructs. *)
Definition row_of (cells : list (string * value)) : row :=
  fun c => match find (fun p => String.eqb (fst p) c) cells with
           | Some (_, v) => v
           | None => VNaN
           end.

(** ** get_optional_required_header *)

Record headers := mk_headers { header : list string; optional_header : list string;
                               required_header : list string }.

Definition get_optional_required_header (data_type : string) : result headers :=
  let mk h opt := Ok (mk_headers h opt (fold_left (fun req o => remove_first o req) opt h)) in
  if String.eqb data_type "scalars" then
    mk ["id_scal"; "scenario"; "name"; "var_name"; "carrier"; "region"; "tech"; "type";
        "var_value"; "var_unit"; "reference"; "comment"]
       ["id_scal"; "var_unit"; "reference"; "comment"]
  else if String.eqb data_type "timeseries" then
    mk ["id_ts"; "region"; "var_name"; "timeindex_start"; "timeindex_stop";
        "timeindex_resolution"; "series"; "var_unit"; "source"; "comment"]
       ["id_ts"; "var_unit"; "source"; "comment"]
  else Err (InvalidSchemaKind data_type).

(** ** Schema recognition shared by [df_filtered] and [df_agg] *)

Inductive shape := Scalars | TimeSeries.

(** The loop [for item in df_header: ... df_header_required.remove(item)],
    removing optional columns of either schema from a copy of the header. *)
Definition strip_optional (opt_sc opt_ts df_header : list string) : list string :=
  fold_left (fun req item =>
               if str_in item opt_sc then remove_first item req
               else if str_in item opt_ts then remove_first item req
               else req) df_header df_header.

Definition list_eqb (l1 l2 : list string) : bool :=
  if list_eq_dec string_dec l1 l2 then true else false.

(** The [if df_header_required == required_header_scalars ... elif ...
    else raise KeyError] block. *)
Definition classify (df : frame) : result shape :=
  let* sc := get_optional_required_header "scalars" in
  let* ts := get_optional_required_header "timeseries" in
  let req := strip_optional (optional_header sc) (optional_header ts) (columns df) in
  if list_eqb req (required_header sc) then Ok Scalars
  else if list_eqb req (required_header ts) then Ok TimeSeries
  else Err (UnrecognizedSchema (header ts) (header sc)).

(** ** df_filtered *)

(** The printed line [User info: {value} not found as item in column {key}.] *)
Inductive notice := NotFound (v : value) (key : string).

Definition filter_options (sh : shape) : list string :=
  match sh with
  | Scalars => ["scenario"; "region"; "carrier"; "tech"; "type"; "var_name"]
  | TimeSeries => ["region"; "var_name"]
  end.

(** One pass of [for value in values]: a notice if [value] is absent from
    the column, else every row whose [key] cell equals [value], appended in
    row order. *)
Definition filter_step (df : frame) (key : string) (col : list value)
    (acc : list row * list notice) (v : value) : list row * list notice :=
  let (out, notes) := acc in
  if negb (py_in v col) then (out, (notes ++ [NotFound v key])%list)
  else ((out ++ filter (fun r => py_eq v (r key)) (rows df))%list, notes).

Definition df_filtered (df : frame) (key : string) (values : list value)
    : result (frame * list notice) :=
  let* sh := classify df in
  let opts := filter_options sh in
  if negb (str_in key opts) then Err (InvalidFilterKey key opts)
  else if negb (str_in key (columns df)) then Err (MissingColumn key)
  else
    let* col := column df key in
    let (out, notes) := fold_left (filter_step df key col) values ([], []) in
    Ok (mk_frame (columns df) out, notes).

(** Sample tables used by the examples below. *)
Definition scalar_columns : list string :=
  ["id_scal"; "scenario"; "name"; "var_name"; "carrier"; "region"; "tech"; "type";
   "var_value"; "var_unit"; "reference"; "comment"].

Definition scalar_row (sc nm vn car reg tec ty : string) (v : Z) : row :=
  row_of [("id_scal", VNum 0); ("scenario", VStr sc); ("name", VStr nm);
          ("var_name", VStr vn); ("carrier", VStr car); ("region", VStr reg);
          ("tech", VStr tec); ("type", VStr ty); ("var_value", VNum v);
          ("var_unit", VStr "MW"); ("reference", VNone); ("comment", VNone)].

Definition sample_scalars : frame :=
  mk_frame scalar_columns
    [scalar_row "base" "BE-wind" "capacity" "electricity" "BE" "wind" "onshore" 10;
     scalar_row "base" "BB-wind" "capacity" "electricity" "BB" "wind" "onshore" 20;
     scalar_row "base" "BB-pv" "capacity" "electricity" "BB" "pv" "rooftop" 5].

Example classify_sample : classify sample_scalars = Ok Scalars.
Proof. reflexivity. Qed.

Example df_filtered_sample :
  match df_filtered sample_scalars "region" [VStr "BB"; VStr "XX"] with
  | Ok (f, notes) => (length (rows f), notes) = (2%nat, [NotFound (VStr "XX") "region"])
  | Err _ => False
  end.
Proof. vm_compute. reflexivity. Qed.

(** ** Building the output DataFrame of [df_agg] *)

Fixpoint insert_sorted (s : string) (l : list string) : list string :=
  match l with
  | [] => [s]
  | x :: xs => if String.leb s x then s :: l else x :: insert_sorted s xs
  end.

Definition sort_strings (l : list string) : list string := fold_right insert_sorted [] l.

(** [df_out = df_out.append(new_row, ignore_index=True)] for a dict
    [new_row]: keys that are not yet columns are added at the end, sorted
    (pandas' [Index.difference]); earlier rows read NaN there. *)
Definition append_dict (f : frame) (d : list (string * value)) : frame :=
  let new := sort_strings (filter (fun k => negb (str_in k (columns f))) (map fst d)) in
  mk_frame (columns f ++ new)%list (rows f ++ [row_of d])%list.

(** ** Python dicts with insertion order ([results_dict]) *)

Definition dict := list (string * value).

Fixpoint dict_get (k : string) (d : dict) : option value :=
  match d with
  | [] => None
  | (k', v) :: d' => if String.eqb k k' then Some v else dict_get k d'
  end.

Fixpoint dict_set (k : string) (v : value) (d : dict) : dict :=
  match d with
  | [] => [(k, v)]
  | (k', v') :: d' => if String.eqb k k' then (k, v) :: d' else (k', v') :: dict_set k v d'
  end.

(** [if k not in results_dict.keys(): results_dict[k] = 0] *)
Definition ensure (k : string) (d : dict) : dict :=
  match dict_get k d with
  | Some _ => d
  | None => dict_set k (VNum 0) d
  end.

(** [results_dict[k] = op(results_dict[k], v)] *)
Definition update (k : string) (op : value -> value -> result value) (v : value) (d : dict)
    : result dict :=
  match dict_get k d with
  | Some x => let* y := op x v in Ok (dict_set k y d)
  | None => Err (KeyErr k)
  end.

(** ** df_agg, scalars *)

(** [sub in x] where [x] is a cell: a substring test on a str, a membership
    test on a list (a str is never an element of a numeric list), a
    [TypeError] otherwise. *)
Definition cell_contains (sub : string) (x : value) : result bool :=
  match x with
  | VStr s => Ok (contains sub s)
  | VSeries _ => Ok false
  | _ => Err TypeErr
  end.

(** The in/out sign convention of flows, costs and invest:
    [if "in" in var_name: add  elif "out" in var_name: subtract]. *)
Definition signed (df : frame) (r : row) (k : string) (vn : value) (d : dict) : result dict :=
  let d := ensure k d in
  let* is_in := cell_contains "in" vn in
  if is_in then let* v := cell df "var_value" r in update k py_add v d
  else
    let* is_out := cell_contains "out" vn in
    if is_out then let* v := cell df "var_value" r in update k py_sub v d
    else Ok d.

(** The body of the row loop once scenario and key match (lines 513-655). *)
Definition agg_scalar_row (df : frame) (key : string) (r : row) (d : dict) : result dict :=
  let* vn := cell df "var_name" r in
  let* is_cap := cell_contains "capacity" vn in
  if is_cap then
    let* v := cell df "var_value" r in update "capacity" py_add v (ensure "capacity" d)
  else
  let* is_flow := cell_contains "flow" vn in
  if is_flow then
    let* s := as_str vn in
    let* energy_carrier := py_index (split_on "_" s) 2 in
    let* k :=
      if negb (contains "carrier" key) && negb (contains "tech" key)
      then Ok ("flow_" ++ energy_carrier)
      else let* c := cell df "carrier" r in
           let* c := as_str c in
           Ok ("flow_" ++ energy_carrier ++ "_" ++ c) in
    signed df r k vn d
  else
  let* is_costs := cell_contains "costs" vn in
  if is_costs then signed df r "costs" vn d
  else
  let* is_invest := cell_contains "invest" vn in
  if is_invest then signed df r "invest" vn d
  else
  let* is_losses := cell_contains "losses" vn in
  if is_losses then
    let* v := cell df "var_value" r in update "losses" py_add v (ensure "losses" d)
  else Err (UnknownVariable vn).

(** [for index_row in df.iterrows(): if df["scenario"][index] == scenario
    and df[key][index] == key_item: ...] *)
Fixpoint agg_scalar_rows (df : frame) (key : string) (scenario key_item : value)
    (rs : list row) (d : dict) : result dict :=
  match rs with
  | [] => Ok d
  | r :: rs' =>
      let* sc := cell df "scenario" r in
      let* matches :=
        if py_eq sc scenario then let* k := cell df key r in Ok (py_eq k key_item)
        else Ok false in
      if matches then let* d' := agg_scalar_row df key r d in agg_scalar_rows df key scenario key_item rs' d'
      else agg_scalar_rows df key scenario key_item rs' d
  end.

(** The dict [new_row] of lines 661-689. *)
Definition scalar_new_row (key : string) (scenario key_item : value) (kv : string * value)
    : list (string * value) :=
  let '(region, carrier, tech) :=
    if String.eqb key "region" then (key_item, VStr "All", VStr "All")
    else if String.eqb key "carrier" then (VStr "All", key_item, VStr "All")
    else (VStr "All", VStr "All", key_item) in
  [("id_scal", VNone); ("scenario", scenario); ("name", VStr ("Aggregated by " ++ key));
   ("var_name", VStr (fst kv)); ("carrier", carrier); ("region", region); ("tech", tech);
   ("type", VStr "All"); ("var_value", snd kv); ("var_unit", VStr "-");
   ("reference", VNone); ("comment", VNone)].

(** The loops [for scenario in scenario_list: for key_item in key_list: ...]. *)
Fixpoint agg_scalar_keys (df : frame) (key : string) (scenario : value) (keys : list value)
    (out : frame) : result frame :=
  match keys with
  | [] => Ok out
  | key_item :: ks =>
      let* d := agg_scalar_rows df key scenario key_item (rows df) [] in
      let out := fold_left (fun o kv => append_dict o (scalar_new_row key scenario key_item kv)) d out in
      agg_scalar_keys df key scenario ks out
  end.

Fixpoint agg_scalar_scenarios (df : frame) (key : string) (scenarios keys : list value)
    (out : frame) : result frame :=
  match scenarios with
  | [] => Ok out
  | sc :: scs =>
      let* out := agg_scalar_keys df key sc keys out in
      agg_scalar_scenarios df key scs keys out
  end.

(** ** df_agg, time series *)

Definition num_add (a b : num) : num :=
  match a, b with
  | Num x, Num y => Num (x + y)
  | _, _ => NaN
  end.

(** The operand of [np.add]: a list, or a number seen as a one-element array. *)
Definition as_array (v : value) : result (list num) :=
  match v with
  | VSeries xs => Ok xs
  | VNum z => Ok [Num z]
  | VNaN => Ok [NaN]
  | _ => Err TypeErr
  end.

Definition num_exact (x : num) : bool :=
  match x with
  | Num z => exact_range z
  | NaN => true
  end.

(** [np.add(a, b)] on one-dimensional arrays, with broadcasting. *)
Definition np_add (a b : list num) : result (list num) :=
  let* s :=
    if Nat.eqb (length a) (length b) then Ok (map (fun p => num_add (fst p) (snd p)) (combine a b))
    else match a, b with
         | [x], _ => Ok (map (num_add x) b)
         | _, [y] => Ok (map (fun x => num_add x y) a)
         | _, _ => Err ShapeErr
         end in
  if forallb num_exact a && forallb num_exact b && forallb num_exact s then Ok s
  else Err Unrepresented.

(** [len(x)] *)
Definition py_len (v : value) : result nat :=
  match v with
  | VSeries xs => Ok (length xs)
  | VStr s => Ok (String.length s)
  | _ => Err TypeErr
  end.

(** [df[c][0]]: the cell of the row labelled 0. *)
Definition cell0 (df : frame) (c : string) : result value :=
  let* r0 := py_index (rows df) 0 in cell df c r0.

(** The row loop of lines 700-712; [acc] is [results_dict.get("series")]. *)
Fixpoint agg_ts_rows (df : frame) (key : string) (key_item : value) (rs : list row)
    (acc : option (list num)) : result (option (list num)) :=
  match rs with
  | [] => Ok acc
  | r :: rs' =>
      let* k := cell df key r in
      if py_eq k key_item then
        let* base :=
          match acc with
          | Some a => Ok a
          | None => let* s0 := cell0 df "series" in
                    let* n := py_len s0 in
                    Ok (repeat (Num 0) n)
          end in
        let* s := cell df "series" r in
        let* xs := as_array s in
        let* sum := np_add base xs in
        agg_ts_rows df key key_item rs' (Some sum)
      else agg_ts_rows df key key_item rs' acc
  end.

(** The dict [new_row] of lines 714-725. *)
Definition ts_new_row (df : frame) (key : string) (key_item : value) (series : list num)
    : result (list (string * value)) :=
  let* start := cell0 df "timeindex_start" in
  let* stop := cell0 df "timeindex_stop" in
  let* res := cell0 df "timeindex_resolution" in
  Ok [("id_ts", VNone); ("region", key_item); ("var_name", VStr ("Aggregated by " ++ key));
      ("timeindex_start", start); ("timeindex_stop", stop);
      ("timeindex_resolution", res); ("series", VSeries series); ("var_unit", VStr "-");
      ("source", VNone); ("comment", VNone)].

Fixpoint agg_ts_keys (df : frame) (key : string) (keys : list value) (out : frame)
    : result frame :=
  match keys with
  | [] => Ok out
  | key_item :: ks =>
      let* acc := agg_ts_rows df key key_item (rows df) None in
      let* series := match acc with Some s => Ok s | None => Err (KeyErr "series") end in
      let* nr := ts_new_row df key key_item series in
      agg_ts_keys df key ks (append_dict out nr)
  end.

(** ** df_agg *)

Definition agg_options (sh : shape) : list string :=
  match sh with
  | Scalars => ["region"; "carrier"; "tech"]
  | TimeSeries => ["region"]
  end.

Definition df_agg (df : frame) (key : string) : result frame :=
  let* sh := classify df in
  let opts := agg_options sh in
  if negb (str_in key opts) then Err (InvalidAggregationKey key opts)
  else if negb (str_in key (columns df)) then Err (MissingColumn key)
  else
    let out := mk_frame (columns df) [] in
    let* key_list := column df key in
    let* key_list := dedup key_list in
    match sh with
    | Scalars =>
        let* scenario_list := column df "scenario" in
        let* scenario_list := dedup scenario_list in
        agg_scalar_scenarios df key scenario_list key_list out
    | TimeSeries => agg_ts_keys df key key_list out
    end.

Example df_agg_sample :
  match df_agg sample_scalars "region" with
  | Ok f => map (fun r => (r "region", r "var_name", r "var_value")) (rows f) =
            [(VStr "BE", VStr "capacity", VNum 10); (VStr "BB", VStr "capacity", VNum 25)]
  | Err _ => False
  end.
Proof. vm_compute. reflexivity. Qed.

(** ** Wide (unstacked) time series *)

(** The row index of a wide DataFrame: a [DatetimeIndex] with its values
    and its frequency attribute ([freqstr], possibly unset), or any other
    index. *)
Inductive index :=
| DatetimeIndex (ts : list Z) (freq : option Z)
| OtherIndex (labels : list value).

(** A wide DataFrame of numbers: the index and the columns, each with its
    label (any cell value but a list) and its values. *)
Record wide := mk_wide { w_index : index; w_columns : list (value * list num) }.

Definition num_eq_dec (a b : num) : {a = b} + {a <> b}.
Proof. decide equality; apply Z.eq_dec. Defined.

(** Equality of labels in a pandas [Index] lookup (hash-based: a NaN label
    finds a NaN label). *)
Definition value_eq_dec (a b : value) : {a = b} + {a <> b}.
Proof.
  decide equality; first [apply string_dec | apply Z.eq_dec | apply (list_eq_dec num_eq_dec)].
Defined.

Definition label_eqb (a b : value) : bool := if value_eq_dec a b then true else false.

(** [_df[column].values], for a label [column] taken from the columns. *)
Definition wide_col (cols : list (value * list num)) (c : value) : result (list num) :=
  match find (fun p => label_eqb (fst p) c) cols with
  | Some (_, xs) => Ok xs
  | None => Err Unrepresented
  end.

(** [n] timestamps from [start] with step [step]. *)
Definition arange (start step : Z) (n : nat) : list Z :=
  map (fun i => start + Z.of_nat i * step) (seq 0 n).

(** [pd.date_range(start, stop, freq=step)] for a fixed step. *)
Definition date_range (start stop step : Z) : result (list Z) :=
  if 0 <? step then
    Ok (if start <=? stop then arange start step (Z.to_nat ((stop - start) / step) + 1) else [])
  else if step <? 0 then
    Ok (if stop <=? start then arange start step (Z.to_nat ((start - stop) / (- step)) + 1) else [])
  else Err ZeroFrequency.

Fixpoint deltas (ts : list Z) : list Z :=
  match ts with
  | a :: ((b :: _) as rest) => (b - a) :: deltas rest
  | _ => []
  end.

(** [pd.infer_freq(index)] for fixed-step frequencies: at least three dates
    are needed; the frequency is the common difference of consecutive
    dates when there is one and it is not zero (a repeated date), and there
    is none otherwise.  pandas also infers calendar frequencies (month
    ends, business days, ...) whose steps vary; those are not modelled, and
    the theorems use the [None] branch only where pandas infers no
    frequency either: on an index that is not monotonic or repeats a date. *)
Definition infer_freq (ts : list Z) : result (option Z) :=
  if (length ts <? 3)%nat then Err TooFewDates
  else match deltas ts with
       | d :: ds => Ok (if (d =? 0) || negb (forallb (Z.eqb d) ds) then None else Some d)
       | [] => Ok None
       end.

Fixpoint find_pos (t : Z) (ts : list Z) : option nat :=
  match ts with
  | [] => None
  | x :: xs => if Z.eqb x t then Some 0%nat else option_map S (find_pos t xs)
  end.

Definition list_min (ts : list Z) : Z := fold_left Z.min ts (hd 0 ts).
Definition list_max (ts : list Z) : Z := fold_left Z.max ts (hd 0 ts).

(** [_df.asfreq(freq)]: the index becomes [date_range(min, max, freq)] and
    every column is reindexed on it, NaN where a date was absent. *)
Definition asfreq (f : Z) (ts : list Z) (cols : list (value * list num))
    : result (list Z * list (value * list num)) :=
  let* idx := date_range (list_min ts) (list_max ts) f in
  let reindex xs := map (fun t => match find_pos t ts with
                                  | Some i => nth i xs NaN
                                  | None => NaN
                                  end) idx in
  Ok (idx, map (fun p => (fst p, reindex (snd p))) cols).

Definition stacked_cols : list string :=
  ["var_name"; "timeindex_start"; "timeindex_stop"; "timeindex_resolution"; "series"].

(** ** stack_timeseries *)

Definition stack_timeseries (df : wide) : result frame :=
  match w_index df with
  | OtherIndex _ => Err NotTimeIndexed
  | DatetimeIndex ts fr =>
      let* inferred := infer_freq ts in
      match inferred with
      | None => Err NoFixedFrequency
      | Some f =>
          let* prepared :=
            match fr with
            | Some g => Ok (ts, w_columns df, g)
            | None => let* p := asfreq f ts (w_columns df) in Ok (fst p, snd p, f)
            end in
          let '(ts', cols', res) := prepared in
          let* timeindex_start := py_index ts' 0 in
          let timeindex_stop := last ts' timeindex_start in
          let* rs := mapM (fun c =>
                       let* series := wide_col cols' c in
                       Ok (row_of [("var_name", c); ("timeindex_start", VNum timeindex_start);
                                   ("timeindex_stop", VNum timeindex_stop);
                                   ("timeindex_resolution", VNum res); ("series", VSeries series)]))
                     (map fst (w_columns df)) in
          Ok (mk_frame stacked_cols rs)
      end
  end.

(** ** check_consistency_timeindex and unstack_timeseries *)

(** [name] of the error messages (the function is only called with the
    three time fields). *)
Definition time_field_name (index : string) : string :=
  if String.eqb index "timeindex_start" then "start date"
  else if String.eqb index "timeindex_stop" then "end date"
  else "frequency".

(** [np.all(array == v0)] for the column [array] of a field and its first
    cell [v0] (pandas' [comparison_op]): a missing [v0] (None, NaN, NaT)
    compares unequal to every cell; a list [v0] is compared element-wise
    with the cells, a [ValueError] when the lengths differ, and the first
    cell (the list itself) never equals a number. *)
Definition array_eq_all (col : list value) (v0 : value) : result bool :=
  match v0 with
  | VNone | VNaN => Ok false
  | VSeries xs => if Nat.eqb (length xs) (length col) then Ok false else Err ShapeErr
  | _ => Ok (forallb (fun v => py_eq v v0) col)
  end.

(** The [value is None] branch is kept as written, though [array_eq_all]
    never holds for a [None] first cell. *)
Definition check_consistency_timeindex (df : frame) (index : string) : result value :=
  let name := time_field_name index in
  let* col := column df index in
  let* v0 := py_index col 0 in
  let* same := array_eq_all col v0 in
  if same then
    match v0 with
    | VNone => Err (MissingTimeField name)
    | _ => Ok v0
    end
  else Err (InconsistentTimeIndex name).

Definition as_series (v : value) : result (list num) :=
  match v with
  | VSeries xs => Ok xs
  | _ => Err ShapeErr
  end.

(** float64 conversion of an integer: round to 53 significant bits, ties to
    even (the integers met here are below 2^64, far from overflow). *)
Definition round_f64 (z : Z) : Z :=
  let a := Z.abs z in
  let e := Z.log2 a - 52 in
  if e <=? 0 then z
  else
    let q := Z.shiftr a e in
    let r := a - Z.shiftl q e in
    let half := Z.shiftl 1 (e - 1) in
    let q' := if (half <? r) || ((r =? half) && Z.odd q) then q + 1 else q in
    Z.sgn z * Z.shiftl q' e.

(** numpy's element dtypes and their promotion in [np.array]. *)
Inductive dtype := DInt64 | DUInt64 | DFloat64 | DObject.

(** A Python int is an int64 if it fits, else a uint64 if it fits, else an
    object; NaN is a float64. *)
Definition num_dtype (x : num) : dtype :=
  match x with
  | NaN => DFloat64
  | Num z =>
      if (- 2 ^ 63 <=? z) && (z <? 2 ^ 63) then DInt64
      else if (0 <=? z) && (z <? 2 ^ 64) then DUInt64
      else DObject
  end.

Definition promote (a b : dtype) : dtype :=
  match a, b with
  | DObject, _ | _, DObject => DObject
  | DFloat64, _ | _, DFloat64 => DFloat64
  | DInt64, DInt64 => DInt64
  | DUInt64, DUInt64 => DUInt64
  | _, _ => DFloat64
  end.

Definition array_dtype (xs : list num) : dtype :=
  match xs with
  | [] => DFloat64
  | x :: xs => fold_left (fun d y => promote d (num_dtype y)) xs (num_dtype x)
  end.

(** The elements as stored in an array of dtype [d]. *)
Definition coerce (d : dtype) (x : num) : num :=
  match d, x with
  | DFloat64, Num z => Num (round_f64 z)
  | _, _ => x
  end.

(** [np.array(values_series)], as its list of rows.  One scalar cell gives
    a one-element array, which the DataFrame constructor takes as one value;
    otherwise the cells must be lists of one length (numpy 1.24 raises on
    ragged or mixed cells; older versions build an object array that the
    DataFrame constructor rejects).  All elements share the promoted dtype. *)
Definition np_array (vs : list value) : result (list (list num)) :=
  let* rs :=
    match vs with
    | [VNum z] => Ok [[Num z]]
    | [VNaN] => Ok [[NaN]]
    | [VStr _] | [VNone] => Err Unrepresented
    | _ => mapM as_series vs
    end in
  match rs with
  | [] => Ok []
  | r :: rs' =>
      if forallb (fun xs => Nat.eqb (length xs) (length r)) rs'
      then let d := array_dtype (concat rs) in Ok (map (map (coerce d)) rs)
      else Err ShapeErr
  end.

(** A [var_name] cell as a column label; a list label would make the
    columns a MultiIndex, which [wide] does not represent. *)
Definition as_label (v : value) : result value :=
  match v with
  | VSeries _ => Err Unrepresented
  | _ => Ok v
  end.

Definition as_num (v : value) : result Z :=
  match v with
  | VNum z => Ok z
  | _ => Err TypeErr
  end.

Definition unstack_timeseries (df : frame) : result wide :=
  let* frequency := check_consistency_timeindex df "timeindex_resolution" in
  let* timeindex_start := check_consistency_timeindex df "timeindex_start" in
  let* timeindex_stop := check_consistency_timeindex df "timeindex_stop" in
  let* values_series := column df "series" in
  let* values_array := np_array values_series in
  let* names := column df "var_name" in
  let* names := mapM as_label names in
  let* f := as_num frequency in
  let* start := as_num timeindex_start in
  let* stop := as_num timeindex_stop in
  let* idx := date_range start stop f in
  if forallb (fun xs => Nat.eqb (length xs) (length idx)) values_array
  then Ok (mk_wide (DatetimeIndex idx (Some f)) (combine names values_array))
  else Err ShapeErr.

(** ** load_timeseries, after the table is read (lines 252-296) *)

(** [df[c] = vals]: a new column at the end, one value per row. *)
Definition add_column (df : frame) (c : string) (vals : list value) : frame :=
  mk_frame (columns df ++ [c])%list
           (map (fun p => fun k => if String.eqb k c then snd p else fst p k)
                (combine (rows df) vals)).

(** [df[header]]: a KeyError naming a missing column. *)
Definition select_columns (df : frame) (hdr : list string) : result frame :=
  match filter (fun c => negb (str_in c (columns df))) hdr with
  | [] => Ok (mk_frame hdr (rows df))
  | c :: _ => Err (KeyErr c)
  end.

(** The region read off [var_name] (lines 268-283). *)
Definition region_of_var_name (vn : value) : result value :=
  let* be := cell_contains "BE" vn in
  let* bb := cell_contains "BB" vn in
  if be && bb then Ok (VStr "BE_BB")
  else if be && negb bb then Ok (VStr "BE")
  else if negb be && bb then Ok (VStr "BB")
  else Err MissingRegion.

(** Completion of a read (or freshly stacked) time series table: only when
    its columns are exactly the required ones, with or without [region],
    are [id_ts], [region] and the other optional columns filled in; the
    table is then restricted to the full header. *)
Definition complete_timeseries (df : frame) : result frame :=
  let* hs := get_optional_required_header "timeseries" in
  let req := required_header hs in
  let req_wo_reg := remove_first "region" req in
  let* df :=
    if (list_eqb (columns df) req || list_eqb (columns df) req_wo_reg)
       && negb (list_eqb (columns df) (header hs)) then
      let* id := py_index (optional_header hs) 0 in
      let df := if str_in id (columns df) then df
                else add_column df id (map (fun i => VNum (Z.of_nat i)) (seq 0 (length (rows df)))) in
      let* reg := py_index req 0 in
      let* df :=
        if str_in reg (columns df) then Ok df
        else let* vns := column df "var_name" in
             let* region := mapM region_of_var_name vns in
             Ok (add_column df reg region) in
      Ok (fold_left (fun df o => if str_in o (columns df) then df
                                 else add_column df o (repeat VNaN (length (rows df))))
                    (tl (optional_header hs)) df)
    else Ok df in
  select_columns df (header hs).

(** A stacked table as read from a csv file with only the required columns,
    without [region]. *)
Definition ts_row (vn : string) (start stop res : Z) (xs : list Z) : row :=
  row_of [("var_name", VStr vn); ("timeindex_start", VNum start); ("timeindex_stop", VNum stop);
          ("timeindex_resolution", VNum res); ("series", VSeries (map Num xs))].

Definition sample_stacked : frame :=
  mk_frame stacked_cols
    [ts_row "BB-electricity-demand" 0 20 10 [1; 2; 3];
     ts_row "BE-electricity-demand" 0 20 10 [4; 5; 6]].

Example complete_sample :
  match complete_timeseries sample_stacked with
  | Ok f => (columns f, map (fun r => r "region") (rows f)) =
            (["id_ts"; "region"; "var_name"; "timeindex_start"; "timeindex_stop";
              "timeindex_resolution"; "series"; "var_unit"; "source"; "comment"],
             [VStr "BB"; VStr "BE"])
  | Err _ => False
  end.
Proof. vm_compute. reflexivity. Qed.

Example roundtrip_sample :
  match unstack_timeseries sample_stacked with
  | Ok w => match stack_timeseries w with
            | Ok f => map (fun r => (r "var_name", r "series")) (rows f) =
                      map (fun r => (r "var_name", r "series")) (rows sample_stacked)
            | Err _ => False
            end
  | Err _ => False
  end.
Proof. vm_compute. reflexivity. Qed.

Example df_agg_ts_sample :
  match df_agg (mk_frame (["region"] ++ stacked_cols)%list
                  [fun c => if String.eqb c "region" then VStr "BB" else ts_row "a" 0 20 10 [1; 2; 3] c;
                   fun c => if String.eqb c "region" then VStr "BB" else ts_row "b" 0 20 10 [4; 5; 6] c])
                 "region" with
  | Ok f => map (fun r => (r "region", r "var_name", r "series")) (rows f) =
            [(VStr "BB", VStr "Aggregated by region", VSeries [Num 5; Num 7; Num 9])]
  | Err _ => False
  end.
Proof. vm_compute. reflexivity. Qed.

(** * Properties *)

(** ** Headers *)

Definition header_sc : list string := scalar_columns.
Definition optional_sc : list string := ["id_scal"; "var_unit"; "reference"; "comment"].
Definition required_sc : list string :=
  ["scenario"; "name"; "var_name"; "carrier"; "region"; "tech"; "type"; "var_value"].
Definition header_ts : list string :=
  ["id_ts"; "region"; "var_name"; "timeindex_start"; "timeindex_stop";
   "timeindex_resolution"; "series"; "var_unit"; "source"; "comment"].
Definition optional_ts : list string := ["id_ts"; "var_unit"; "source"; "comment"].
Definition required_ts : list string :=
  ["region"; "var_name"; "timeindex_start"; "timeindex_stop"; "timeindex_resolution"; "series"].

Lemma headers_scalars :
  get_optional_required_header "scalars" = Ok (mk_headers header_sc optional_sc required_sc).
Proof. reflexivity. Qed.

Lemma headers_timeseries :
  get_optional_required_header "timeseries" = Ok (mk_headers header_ts optional_ts required_ts).
Proof. reflexivity. Qed.

Lemma list_eqb_true l1 l2 : list_eqb l1 l2 = true <-> l1 = l2.
Proof. unfold list_eqb; destruct (list_eq_dec string_dec l1 l2); split; congruence. Qed.

Lemma classify_eq (df : frame) :
  classify df =
  let req := strip_optional optional_sc optional_ts (columns df) in
  if list_eqb req required_sc then Ok Scalars
  else if list_eqb req required_ts then Ok TimeSeries
  else Err (UnrecognizedSchema header_ts header_sc).
Proof. unfold classify; rewrite headers_scalars, headers_timeseries; reflexivity. Qed.

Lemma str_in_In x l : str_in x l = true <-> In x l.
Proof.
  unfold str_in; rewrite existsb_exists; split.
  - intros (y & Hy & E); apply String.eqb_eq in E; subst; exact Hy.
  - intros H; exists x; split; [exact H | apply String.eqb_refl].
Qed.

Lemma remove_first_incl x l y : In y (remove_first x l) -> In y l.
Proof.
  induction l as [|z l IH]; simpl; [tauto|].
  destruct (String.eqb x z); simpl; [tauto|]. intros [H|H]; [left; exact H | right; auto].
Qed.

Lemma strip_optional_incl o1 o2 hdr y : In y (strip_optional o1 o2 hdr) -> In y hdr.
Proof.
  unfold strip_optional.
  assert (G : forall items acc, (forall z, In z acc -> In z hdr) ->
            In y (fold_left (fun req item =>
               if str_in item o1 then remove_first item req
               else if str_in item o2 then remove_first item req else req) items acc) -> In y hdr).
  { induction items as [|i items IH]; simpl; intros acc Hacc Hy; [auto|].
    refine (IH _ _ Hy). intros z Hz.
    destruct (str_in i o1); [|destruct (str_in i o2)]; eauto using remove_first_incl. }
  apply G; auto.
Qed.

Lemma classify_scalars_columns df c :
  classify df = Ok Scalars -> In c required_sc -> In c (columns df).
Proof.
  rewrite classify_eq; cbv zeta.
  destruct (list_eqb _ required_sc) eqn:E1.
  - apply list_eqb_true in E1. intros _ Hc. rewrite <- E1 in Hc.
    eapply strip_optional_incl; exact Hc.
  - destruct (list_eqb _ required_ts); discriminate.
Qed.

Lemma classify_ts_columns df c :
  classify df = Ok TimeSeries -> In c required_ts -> In c (columns df).
Proof.
  rewrite classify_eq; cbv zeta.
  destruct (list_eqb _ required_sc) eqn:E1; [discriminate|].
  destruct (list_eqb _ required_ts) eqn:E2; [|discriminate].
  apply list_eqb_true in E2. intros _ Hc. rewrite <- E2 in Hc.
  eapply strip_optional_incl; exact Hc.
Qed.

(** ** C6: schema recognition in df_filtered and df_agg *)

Lemma classify_unrecognized df :
  strip_optional optional_sc optional_ts (columns df) <> required_sc ->
  strip_optional optional_sc optional_ts (columns df) <> required_ts ->
  classify df = Err (UnrecognizedSchema header_ts header_sc).
Proof.
  intros H1 H2. rewrite classify_eq; cbv zeta.
  destruct (list_eqb _ required_sc) eqn:E1; [apply list_eqb_true in E1; contradiction|].
  destruct (list_eqb _ required_ts) eqn:E2; [apply list_eqb_true in E2; contradiction|].
  reflexivity.
Qed.

(** C6 (amended).  df_filtered and df_agg remove every optional column of
    either schema from the list of the table's columns and compare what is
    left, as an ordered list, with the canonical required header of scalars
    and then of time series: equality with the first classifies the table
    as scalars, with the second as a time series; any other list, a
    permutation of a required header included, fails with
    UnrecognizedSchema carrying both full headers. *)
Theorem schema_recognition_ordered (df : frame) (key : string) (vals : list value) :
  (classify df = Ok Scalars <-> strip_optional optional_sc optional_ts (columns df) = required_sc) /\
  (classify df = Ok TimeSeries <->
     strip_optional optional_sc optional_ts (columns df) = required_ts) /\
  (strip_optional optional_sc optional_ts (columns df) <> required_sc ->
   strip_optional optional_sc optional_ts (columns df) <> required_ts ->
   df_filtered df key vals = Err (UnrecognizedSchema header_ts header_sc) /\
   df_agg df key = Err (UnrecognizedSchema header_ts header_sc)).
Proof.
  split; [|split].
  - rewrite classify_eq; cbv zeta.
    destruct (list_eqb _ required_sc) eqn:E1.
    + apply list_eqb_true in E1; tauto.
    + split; [destruct (list_eqb _ required_ts); discriminate|].
      intros E; rewrite E in E1; rewrite (proj2 (list_eqb_true _ _) eq_refl) in E1; discriminate.
  - rewrite classify_eq; cbv zeta.
    destruct (list_eqb _ required_sc) eqn:E1.
    + apply list_eqb_true in E1; rewrite E1; split; [discriminate|].
      intros E; discriminate E.
    + destruct (list_eqb _ required_ts) eqn:E2.
      * apply list_eqb_true in E2; tauto.
      * split; [discriminate|].
        intros E; rewrite E in E2; rewrite (proj2 (list_eqb_true _ _) eq_refl) in E2; discriminate.
  - intros H1 H2.
    unfold df_filtered, df_agg; rewrite (classify_unrecognized df H1 H2); split; reflexivity.
Qed.

(** The sample scalar table with the columns [scenario] and [name] swapped. *)
Definition permuted_scalars : frame :=
  mk_frame ["id_scal"; "name"; "scenario"; "var_name"; "carrier"; "region"; "tech"; "type";
            "var_value"; "var_unit"; "reference"; "comment"] (rows sample_scalars).

Lemma schema_recognition_ordered_witness :
  strip_optional optional_sc optional_ts (columns permuted_scalars) <> required_sc /\
  strip_optional optional_sc optional_ts (columns permuted_scalars) <> required_ts /\
  df_filtered permuted_scalars "region" [VStr "BB"] = Err (UnrecognizedSchema header_ts header_sc).
Proof.
  assert (H1 : strip_optional optional_sc optional_ts (columns permuted_scalars) <> required_sc)
    by (vm_compute; discriminate).
  assert (H2 : strip_optional optional_sc optional_ts (columns permuted_scalars) <> required_ts)
    by (vm_compute; discriminate).
  split; [exact H1|]. split; [exact H2|].
  exact (proj1 (proj2 (proj2 (schema_recognition_ordered permuted_scalars "region" [VStr "BB"])) H1 H2)).
Defined.

(** C6 (as stated) fails: the sample table is recognised as scalars, the
    same table with two required columns swapped, hence with the same set of
    columns, is rejected by both functions. *)
Lemma schema_recognition_order_matters :
  classify sample_scalars = Ok Scalars /\
  df_filtered permuted_scalars "region" [VStr "BB"] = Err (UnrecognizedSchema header_ts header_sc) /\
  df_agg permuted_scalars "region" = Err (UnrecognizedSchema header_ts header_sc).
Proof. vm_compute. repeat split. Qed.

(** ** C9: df_filtered *)

(** The rows kept for the values [vals]: for each value in turn, the rows
    whose [key] cell equals it, in row order. *)
Definition rows_for (df : frame) (key : string) (vals : list value) : list row :=
  flat_map (fun v => filter (fun r => py_eq v (r key)) (rows df)) vals.

Lemma filter_absent (df : frame) (key : string) (v : value) :
  py_in v (map (fun r => r key) (rows df)) = false ->
  filter (fun r => py_eq v (r key)) (rows df) = [].
Proof.
  unfold py_in. induction (rows df) as [|r rs IH]; simpl; [reflexivity|].
  destruct (py_eq v (r key)); simpl; [discriminate|exact IH].
Qed.

Lemma fold_filter_step (df : frame) (key : string) (vals : list value) out notes :
  fold_left (filter_step df key (map (fun r => r key) (rows df))) vals (out, notes) =
  ((out ++ rows_for df key vals)%list,
   (notes ++ map (fun v => NotFound v key)
                 (filter (fun v => negb (py_in v (map (fun r => r key) (rows df)))) vals))%list).
Proof.
  revert out notes; induction vals as [|v vals IH]; intros out notes; simpl.
  - rewrite !app_nil_r; reflexivity.
  - unfold filter_step at 1.
    destruct (py_in v (map (fun r => r key) (rows df))) eqn:E; simpl.
    + rewrite IH, app_assoc; reflexivity.
    + rewrite IH, (filter_absent df key v E); simpl.
      rewrite <- !app_assoc; reflexivity.
Qed.

Lemma column_present df c : str_in c (columns df) = true -> column df c = Ok (map (fun r => r c) (rows df)).
Proof. unfold column; intros ->; reflexivity. Qed.

(** C9 (amended).  For a recognised table and an allowed key that is a
    column, df_filtered returns, with the table's columns, for each value of
    [vals] in turn the rows whose key cell equals it, in row order (a value
    listed twice contributes its rows twice, and the rows follow the order
    of [vals] before the order of the table); it emits one notice per value
    with no match, and such a value adds no row, so listing it leaves the
    size of the result unchanged.  The values neither are nor hold NaN:
    Python's [in] tests identity before equality, so a NaN object that is
    itself a cell of the column counts as found, which [py_in] does not
    model. *)
Theorem df_filtered_rows_and_notices (df : frame) (sh : shape) (key : string) (vals : list value) :
  classify df = Ok sh ->
  str_in key (filter_options sh) = true ->
  str_in key (columns df) = true ->
  forallb nan_free vals = true ->
  df_filtered df key vals =
    Ok (mk_frame (columns df) (rows_for df key vals),
        map (fun v => NotFound v key)
            (filter (fun v => negb (py_in v (map (fun r => r key) (rows df)))) vals)) /\
  (forall vs1 v vs2, py_in v (map (fun r => r key) (rows df)) = false ->
     length (rows_for df key (vs1 ++ v :: vs2)) = length (rows_for df key (vs1 ++ vs2))).
Proof.
  intros Hc Hk Hcol _. split.
  - unfold df_filtered; rewrite Hc; simpl; rewrite Hk, Hcol; simpl.
    rewrite (column_present df key Hcol); simpl.
    rewrite fold_filter_step; reflexivity.
  - intros vs1 v vs2 Hv. unfold rows_for.
    rewrite !flat_map_app; simpl. rewrite (filter_absent df key v Hv); reflexivity.
Qed.

Lemma df_filtered_rows_and_notices_witness :
  df_filtered sample_scalars "region" [VStr "BB"] =
    Ok (mk_frame (columns sample_scalars) (rows_for sample_scalars "region" [VStr "BB"]),
        map (fun v => NotFound v "region")
            (filter (fun v => negb (py_in v (map (fun r => r "region") (rows sample_scalars))))
                    [VStr "BB"])).
Proof.
  exact (proj1 (df_filtered_rows_and_notices sample_scalars Scalars "region" [VStr "BB"]
                  eq_refl eq_refl eq_refl eq_refl)).
Defined.

(** C9 (as stated) fails: filtering the sample table (regions BE, BB, BB) by
    the values BB then BE yields the BB rows before the BE row, not the
    matching rows in table order. *)
Lemma df_filtered_follows_value_order :
  match df_filtered sample_scalars "region" [VStr "BB"; VStr "BE"] with
  | Ok (f, _) =>
      map (fun r => r "region") (rows f) = [VStr "BB"; VStr "BB"; VStr "BE"] /\
      map (fun r => r "region")
          (filter (fun r => py_in (r "region") [VStr "BB"; VStr "BE"]) (rows sample_scalars)) =
        [VStr "BE"; VStr "BB"; VStr "BB"]
  | Err _ => False
  end.
Proof. vm_compute. split; reflexivity. Qed.

(** ** C10: the type column of aggregated scalars *)

Definition all_type_All (f : frame) : Prop :=
  In "type" (columns f) /\ Forall (fun r => r "type" = VStr "All") (rows f).

Lemma scalar_new_row_type key scenario key_item kv :
  row_of (scalar_new_row key scenario key_item kv) "type" = VStr "All".
Proof.
  unfold scalar_new_row.
  destruct (String.eqb key "region"); [|destruct (String.eqb key "carrier")]; reflexivity.
Qed.

Lemma append_dict_type f key scenario key_item kv :
  all_type_All f -> all_type_All (append_dict f (scalar_new_row key scenario key_item kv)).
Proof.
  intros [Hin Hall]; split; simpl.
  - apply in_or_app; left; exact Hin.
  - apply Forall_app; split; [exact Hall|].
    constructor; [apply scalar_new_row_type | constructor].
Qed.

Lemma agg_scalar_keys_type df key scenario keys out out' :
  all_type_All out -> agg_scalar_keys df key scenario keys out = Ok out' -> all_type_All out'.
Proof.
  revert out; induction keys as [|k ks IH]; simpl; intros out Hout H.
  - injection H as <-; exact Hout.
  - destruct (agg_scalar_rows df key scenario k (rows df) []) as [d|e]; simpl in H; [|discriminate].
    refine (IH _ _ H).
    clear H; revert out Hout; induction d as [|kv d IHd]; simpl; intros out Hout; [exact Hout|].
    apply IHd, append_dict_type, Hout.
Qed.

Lemma agg_scalar_scenarios_type df key scs keys out out' :
  all_type_All out -> agg_scalar_scenarios df key scs keys out = Ok out' -> all_type_All out'.
Proof.
  revert out; induction scs as [|sc scs IH]; simpl; intros out Hout H.
  - injection H as <-; exact Hout.
  - destruct (agg_scalar_keys df key sc keys out) as [o|e] eqn:E; simpl in H; [|discriminate].
    exact (IH o (agg_scalar_keys_type _ _ _ _ _ _ Hout E) H).
Qed.

(** C10.  Every row that df_agg emits for a table recognised as scalars,
    whatever the (allowed) key and the input's type values, has its type
    column, which is a column of the result, set to "All". *)
Theorem df_agg_scalars_type_All (df : frame) (key : string) (out : frame) :
  classify df = Ok Scalars ->
  df_agg df key = Ok out ->
  In "type" (columns out) /\ Forall (fun r => r "type" = VStr "All") (rows out).
Proof.
  intros Hc H. unfold df_agg in H; rewrite Hc in H; cbn [bind agg_options] in H.
  destruct (negb (str_in key ["region"; "carrier"; "tech"])); [discriminate|].
  destruct (negb (str_in key (columns df))); [discriminate|].
  destruct (column df key) as [kl|e]; cbn [bind] in H; [|discriminate].
  destruct (dedup kl) as [kl'|e]; cbn [bind] in H; [|discriminate].
  destruct (column df "scenario") as [sl|e]; cbn [bind] in H; [|discriminate].
  destruct (dedup sl) as [sl'|e]; cbn [bind] in H; [|discriminate].
  refine (agg_scalar_scenarios_type _ _ _ _ _ _ _ H).
  split; [|constructor].
  apply (classify_scalars_columns df "type" Hc); simpl; tauto.
Qed.

Lemma df_agg_scalars_type_All_witness :
  match df_agg sample_scalars "carrier" with
  | Ok out => In "type" (columns out) /\ Forall (fun r => r "type" = VStr "All") (rows out)
  | Err _ => False
  end.
Proof.
  destruct (df_agg sample_scalars "carrier") as [out|e] eqn:E.
  - exact (df_agg_scalars_type_All sample_scalars "carrier" out eq_refl E).
  - vm_compute in E; discriminate E.
Defined.

(** ** C2: the in/out sign convention of scalar aggregation *)

(** Two flows of wind into and out of the carrier wind, in one scenario. *)
Definition wind_flows : frame :=
  mk_frame scalar_columns
    [scalar_row "base" "BB-wind" "flow_in_wind" "wind" "BB" "wind" "onshore" 5;
     scalar_row "base" "BB-wind" "flow_out_wind" "wind" "BB" "wind" "onshore" 3].

(** The same with the carrier electricity, whose name contains no "in". *)
Definition electricity_flows : frame :=
  mk_frame scalar_columns
    [scalar_row "base" "BB-el" "flow_in_electricity" "electricity" "BB" "grid" "line" 5;
     scalar_row "base" "BB-el" "flow_out_electricity" "electricity" "BB" "grid" "line" 3].

(** C2 (code bug).  Aggregating [wind_flows] by carrier gives one row,
    region and tech "All", with var_value 5 + 3 = 8 where the sign
    convention asks for 5 - 3 = 2: the test [if "in" in var_name] also
    matches the "in" inside "wind", so the "out" flow is added; the same
    carrier name without "in" gives 5 - 3. *)
Theorem df_agg_flow_out_wind_added :
  (match df_agg wind_flows "carrier" with
   | Ok f => map (fun r => (r "var_name", r "region", r "tech", r "var_value")) (rows f) =
             [(VStr "flow_wind_wind", VStr "All", VStr "All", VNum 8)]
   | Err _ => False
   end) /\
  (match df_agg electricity_flows "carrier" with
   | Ok f => map (fun r => (r "var_name", r "region", r "tech", r "var_value")) (rows f) =
             [(VStr "flow_electricity_electricity", VStr "All", VStr "All", VNum 2)]
   | Err _ => False
   end).
Proof. vm_compute. split; reflexivity. Qed.

(** ** C3: unrecognised variables in scalar aggregation *)





(** A cell whose numbers, times [n], have magnitude at most 2^53. *)
Definition value_within (n : nat) (v : value) : bool :=
  match v with
  | VNum z => Z.of_nat n * Z.abs z <=? 2 ^ 53
  | VSeries xs =>
      forallb (fun x => match x with Num z => Z.of_nat n * Z.abs z <=? 2 ^ 53 | NaN => true end) xs
  | _ => true
  end.

(** The numbers of column [c], times the number of rows, have magnitude at
    most 2^53: every sum of cells of the column stays where numpy adds
    exactly. *)
Definition small_column (df : frame) (c : string) : bool :=
  forallb (fun r => value_within (length (rows df)) (r c)) (rows df).


Lemma cell_present df c r : In c (columns df) -> cell df c r = Ok (r c).
Proof. intros H; unfold cell; apply str_in_In in H; rewrite H; reflexivity. Qed.







Lemma exact_of_within N m z :
  (m <= N)%nat -> (0 < N)%nat -> Z.of_nat N * Z.abs z <= Z.of_nat m * 2 ^ 53 -> exact_range z = true.
Proof.
  intros Hm HN Hz; unfold exact_range; apply Z.leb_le.
  apply (Z.mul_le_mono_pos_l _ _ (Z.of_nat N)); [lia|].
  apply (Z.le_trans _ _ _ Hz). apply Z.mul_le_mono_nonneg_r; [apply Z.pow_nonneg; lia | lia].
Qed.

Lemma within_sum N m x y s :
  Z.of_nat N * Z.abs x <= Z.of_nat m * 2 ^ 53 -> Z.of_nat N * Z.abs y <= Z.of_nat 1 * 2 ^ 53 ->
  Z.abs s <= Z.abs x + Z.abs y ->
  Z.of_nat N * Z.abs s <= Z.of_nat (S m) * 2 ^ 53.
Proof.
  intros Hx Hy Ht.
  assert (Z.of_nat N * Z.abs s <= Z.of_nat N * (Z.abs x + Z.abs y))
    by (apply Z.mul_le_mono_nonneg_l; lia).
  rewrite Nat2Z.inj_succ. lia.
Qed.





Lemma required_sc_columns df c :
  classify df = Ok Scalars -> In c required_sc -> In c (columns df).
Proof. apply classify_scalars_columns. Qed.













Lemma df_agg_scalars_bind df key :
  classify df = Ok Scalars -> In key ["region"; "carrier"; "tech"] ->
  df_agg df key =
    let* kl := dedup (map (fun r => r key) (rows df)) in
    let* sl := dedup (map (fun r => r "scenario") (rows df)) in
    agg_scalar_scenarios df key sl kl (mk_frame (columns df) []).
Proof.
  intros Hc Hk.
  assert (Hkc : In key (columns df)) by (apply (required_sc_columns df key Hc); simpl in *; tauto).
  assert (Hsc : In "scenario" (columns df)) by (apply (required_sc_columns df); [exact Hc | simpl; tauto]).
  unfold df_agg; rewrite Hc; cbn [bind agg_options].
  rewrite (proj2 (str_in_In _ _) Hk), (proj2 (str_in_In _ _) Hkc); cbn [negb].
  rewrite (column_present df key (proj2 (str_in_In _ _) Hkc)),
          (column_present df "scenario" (proj2 (str_in_In _ _) Hsc)).
  reflexivity.
Qed.

Lemma dedup_ok l : forallb hashable l = true -> dedup l = Ok (dedup_aux [] l).
Proof. unfold dedup; intros ->; reflexivity. Qed.

Lemma dedup_ok_inv l l' : dedup l = Ok l' -> forallb hashable l = true /\ l' = dedup_aux [] l.
Proof. unfold dedup; destruct (forallb hashable l); intros H; [injection H as <-; auto|discriminate]. Qed.

(** Scenario and key cells that Python can hash. *)
Definition hashable_groups (df : frame) (key : string) : bool :=
  forallb hashable (map (fun r => r key) (rows df)) &&
  forallb hashable (map (fun r => r "scenario") (rows df)).

Lemma df_agg_scalars_eq df key :
  classify df = Ok Scalars -> In key ["region"; "carrier"; "tech"] ->
  hashable_groups df key = true ->
  df_agg df key =
    agg_scalar_scenarios df key (dedup_aux [] (map (fun r => r "scenario") (rows df)))
      (dedup_aux [] (map (fun r => r key) (rows df))) (mk_frame (columns df) []).
Proof.
  intros Hc Hk Hh; apply andb_prop in Hh; destruct Hh as [H1 H2].
  rewrite (df_agg_scalars_bind df key Hc Hk), (dedup_ok _ H1); cbn [bind].
  rewrite (dedup_ok _ H2); reflexivity.
Qed.

(** On a successful aggregation the groups are hashable and the result is
    that of the scan. *)
Lemma df_agg_scalars_ok df key out :
  classify df = Ok Scalars -> In key ["region"; "carrier"; "tech"] ->
  df_agg df key = Ok out ->
  hashable_groups df key = true /\
  agg_scalar_scenarios df key (dedup_aux [] (map (fun r => r "scenario") (rows df)))
    (dedup_aux [] (map (fun r => r key) (rows df))) (mk_frame (columns df) []) = Ok out.
Proof.
  intros Hc Hk H; rewrite (df_agg_scalars_bind df key Hc Hk) in H.
  destruct (dedup (map (fun r => r key) (rows df))) as [kl|e] eqn:E1; cbn [bind] in H; [|discriminate].
  destruct (dedup (map (fun r => r "scenario") (rows df))) as [sl|e] eqn:E2; cbn [bind] in H; [|discriminate].
  apply dedup_ok_inv in E1; apply dedup_ok_inv in E2.
  destruct E1 as [H1 ->], E2 as [H2 ->].
  unfold hashable_groups; rewrite H1, H2; split; [reflexivity|exact H].
Qed.






(** ** C7: time series aggregation by region *)

Definition series_of (r : row) : list num :=
  match r "series" with
  | VSeries xs => xs
  | _ => []
  end.

Definition add_arrays (a b : list num) : list num :=
  map (fun p => num_add (fst p) (snd p)) (combine a b).

(** The element-wise sum of equally long series of length [n]. *)
Definition sum_series (n : nat) (xss : list (list num)) : list num :=
  fold_left add_arrays xss (repeat (Num 0) n).

Definition acc_add (n : nat) (acc : option (list num)) (xs : list num) : option (list num) :=
  Some (add_arrays (match acc with Some a => a | None => repeat (Num 0) n end) xs).

Lemma add_arrays_length a b : length (add_arrays a b) = Nat.min (length a) (length b).
Proof. unfold add_arrays; rewrite length_map, length_combine; reflexivity. Qed.

(** A number of magnitude at most [m * 2^53 / N], or NaN. *)
Definition num_within (N m : nat) (x : num) : Prop :=
  x = NaN \/ exists z, x = Num z /\ Z.of_nat N * Z.abs z <= Z.of_nat m * 2 ^ 53.

Lemma num_within_mono N m m' x : (m <= m')%nat -> num_within N m x -> num_within N m' x.
Proof.
  intros Hm [->|(z & -> & Hz)]; [left; reflexivity|right; exists z; split; [reflexivity|]].
  apply (Z.le_trans _ _ _ Hz). apply Z.mul_le_mono_nonneg_r; [apply Z.pow_nonneg; lia | lia].
Qed.

Lemma repeat_zero_within N m n : Forall (num_within N m) (repeat (Num 0) n).
Proof.
  apply Forall_forall; intros x Hx; apply repeat_spec in Hx; subst x.
  right; exists 0; split; [reflexivity|]. cbn [Z.abs]; rewrite Z.mul_0_r.
  apply Z.mul_nonneg_nonneg; [lia | apply Z.pow_nonneg; lia].
Qed.

Lemma add_arrays_within N m a b :
  Forall (num_within N m) a -> Forall (num_within N 1) b -> Forall (num_within N (S m)) (add_arrays a b).
Proof.
  unfold add_arrays; revert b; induction a as [|x a IH]; intros [|y b] Ha Hb; simpl; try constructor.
  - inversion Ha as [|? ? Hx Ha']; inversion Hb as [|? ? Hy Hb']; subst.
    destruct Hx as [->|(u & -> & Hu)]; [left; reflexivity|].
    destruct Hy as [->|(v & -> & Hv)]; [left; reflexivity|].
    right; exists (u + v); split; [reflexivity|].
    exact (within_sum N m u v (u + v) Hu Hv (Z.abs_triangle u v)).
  - inversion Ha; inversion Hb; subst. apply IH; assumption.
Qed.

Lemma num_exact_within N m a :
  (m <= N)%nat -> (0 < N)%nat -> Forall (num_within N m) a -> forallb num_exact a = true.
Proof.
  intros Hm HN H; apply forallb_forall; intros x Hx.
  rewrite Forall_forall in H; destruct (H x Hx) as [->|(z & -> & Hz)]; [reflexivity|].
  exact (exact_of_within N m z Hm HN Hz).
Qed.

Lemma np_add_same_length a b :
  length a = length b -> forallb num_exact a = true -> forallb num_exact b = true ->
  forallb num_exact (add_arrays a b) = true -> np_add a b = Ok (add_arrays a b).
Proof.
  intros H Ha Hb Hs; unfold np_add; rewrite H, Nat.eqb_refl; cbn [bind].
  fold (add_arrays a b); rewrite Ha, Hb, Hs; reflexivity.
Qed.

Definition series_len (n : nat) (r : row) : Prop := exists xs, r "series" = VSeries xs /\ length xs = n.

Lemma agg_ts_rows_eq df key k rs acc n N m :
  In key (columns df) -> In "series" (columns df) ->
  (exists xs0, cell0 df "series" = Ok (VSeries xs0) /\ length xs0 = n) ->
  Forall (series_len n) rs ->
  Forall (fun r => Forall (num_within N 1) (series_of r)) rs ->
  (m + length rs <= N)%nat ->
  (acc = None \/ exists a, acc = Some a /\ length a = n /\ Forall (num_within N m) a) ->
  agg_ts_rows df key k rs acc =
    Ok (fold_left (acc_add n) (map series_of (filter (fun r => py_eq (r key) k) rs)) acc).
Proof.
  intros Hk Hs (xs0 & H0 & Hl0). revert acc m.
  induction rs as [|r rs IH]; intros acc m Hall Hwv Hm Hacc; simpl; [reflexivity|].
  apply Forall_cons_iff in Hall; destruct Hall as [(xs & Hxs & Hlen) Hrest].
  apply Forall_cons_iff in Hwv; destruct Hwv as [Hxw Hrestw].
  simpl in Hm.
  rewrite (cell_present _ _ _ Hk); cbn [bind].
  destruct (py_eq (r key) k); simpl.
  - assert (Hbase : exists a, (match acc with
                               | Some a => Ok a
                               | None => let* s0 := cell0 df "series" in
                                         let* n := py_len s0 in Ok (repeat (Num 0) n)
                               end) = Ok a /\ length a = length xs /\ Forall (num_within N m) a /\
                              a = match acc with Some a => a | None => repeat (Num 0) (length xs) end).
    { destruct Hacc as [->|(a & -> & Ha & Haw)].
      - exists (repeat (Num 0) (length xs)). rewrite H0; cbn [bind py_len].
        rewrite Hl0, <- Hlen, repeat_length; auto using repeat_zero_within.
      - exists a; split; [reflexivity|]; split; [congruence|]; split; [exact Haw | reflexivity]. }
    destruct Hbase as (a & -> & Ha & Haw & Ea); cbn [bind].
    rewrite (cell_present _ _ _ Hs), Hxs; cbn [bind as_array].
    replace (series_of r) with xs in Hxw by (unfold series_of; rewrite Hxs; reflexivity).
    assert (Hsw := add_arrays_within N m a xs Haw Hxw).
    rewrite (np_add_same_length _ _ Ha (num_exact_within N m a ltac:(lia) ltac:(lia) Haw)
               (num_exact_within N 1 xs ltac:(lia) ltac:(lia) Hxw)
               (num_exact_within N (S m) _ ltac:(lia) ltac:(lia) Hsw)).
    cbn [bind].
    rewrite (IH _ (S m)); [| exact Hrest | exact Hrestw | lia |].
    + replace (series_of r) with xs by (unfold series_of; rewrite Hxs; reflexivity).
      unfold acc_add at 2; rewrite Ea, Hlen; reflexivity.
    + right; exists (add_arrays a xs); split; [reflexivity|]; split; [|exact Hsw].
      rewrite add_arrays_length, Ha, Nat.min_id; exact Hlen.
  - apply (IH _ m); [exact Hrest | exact Hrestw | lia | exact Hacc].
Qed.

Lemma fold_acc_add_some n xss a :
  fold_left (acc_add n) xss (Some a) = Some (fold_left add_arrays xss a).
Proof. revert a; induction xss as [|xs xss IH]; intros a; simpl; [reflexivity | apply IH]. Qed.

Lemma fold_acc_add_none n xs xss :
  fold_left (acc_add n) (xs :: xss) None = Some (sum_series n (xs :: xss)).
Proof. simpl; apply fold_acc_add_some. Qed.

Lemma dedup_aux_incl seen l y : In y (dedup_aux seen l) -> In y l.
Proof.
  revert seen; induction l as [|z l IH]; simpl; intros seen; [tauto|].
  destruct (py_in z seen); simpl; intros H; [right; exact (IH _ H)|].
  destruct H as [H|H]; [left; exact H | right; exact (IH _ H)].
Qed.

(** The cells of an aggregated time series row that C7 is about. *)
Definition ts_view (r : row) : value * value * value * value * value * value * value :=
  (r "region", r "var_name", r "timeindex_start", r "timeindex_stop",
   r "timeindex_resolution", r "series", r "var_unit").

Lemma small_series df n :
  Forall (series_len n) (rows df) -> small_column df "series" = true ->
  Forall (fun r => Forall (num_within (length (rows df)) 1) (series_of r)) (rows df).
Proof.
  unfold small_column; intros Hall Hs; rewrite Forall_forall in Hall |- *;
    rewrite forallb_forall in Hs; intros r Hr.
  destruct (Hall r Hr) as (xs & E & _). specialize (Hs r Hr).
  unfold series_of; rewrite E; rewrite E in Hs; cbn [value_within] in Hs.
  rewrite forallb_forall in Hs; apply Forall_forall; intros x Hx; specialize (Hs x Hx).
  destruct x as [z|]; [right; exists z; split; [reflexivity|]; apply Z.leb_le in Hs; lia | left; reflexivity].
Qed.

(** The cells C7 expects for the aggregate of the region [k]: time fields
    of the first row [r0] of the table, and the element-wise sum of the
    series of the rows whose region equals [k]. *)
Definition ts_expected (r0 : row) (n : nat) (rs : list row) (k : value)
    : value * value * value * value * value * value * value :=
  (k, VStr "Aggregated by region", r0 "timeindex_start", r0 "timeindex_stop",
   r0 "timeindex_resolution",
   VSeries (sum_series n (map series_of (filter (fun r => py_eq (r "region") k) rs))),
   VStr "-").

(** A time series row with its region. *)
Definition ts_row_in (reg vn : string) (start stop res : Z) (xs : list Z) : row :=
  fun c => if String.eqb c "region" then VStr reg else ts_row vn start stop res xs c.

(** Two regions whose rows do not share their time fields. *)
Definition regional_ts : frame :=
  mk_frame (["region"] ++ stacked_cols)%list
    [ts_row_in "BB" "a" 0 20 10 [1; 2; 3];
     ts_row_in "BE" "b" 100 120 10 [4; 5; 6];
     ts_row_in "BB" "c" 0 20 10 [7; 8; 9]].

Lemma fold_acc_add_nonempty n xss :
  xss <> [] -> fold_left (acc_add n) xss None = Some (sum_series n xss).
Proof. destruct xss as [|xs xss]; [congruence|intros _; apply fold_acc_add_none]. Qed.

Lemma cell0_first df r0 rs c :
  rows df = r0 :: rs -> In c (columns df) -> cell0 df c = Ok (r0 c).
Proof. intros Hr Hc; unfold cell0, py_index; rewrite Hr; simpl; apply cell_present, Hc. Qed.

Lemma agg_ts_keys_eq df r0 rs n keys out :
  rows df = r0 :: rs -> (forall c, In c required_ts -> In c (columns df)) ->
  Forall (series_len n) (rows df) ->
  Forall (fun r => Forall (num_within (length (rows df)) 1) (series_of r)) (rows df) ->
  (forall k, In k keys -> exists r, In r (rows df) /\ py_eq (r "region") k = true) ->
  exists out', agg_ts_keys df "region" keys out = Ok out' /\
    map ts_view (rows out') = (map ts_view (rows out) ++ map (ts_expected r0 n (rows df)) keys)%list.
Proof.
  intros Hr Hcols Hall Hwv.
  assert (Hc : forall c, In c required_ts -> cell0 df c = Ok (r0 c))
    by (intros c Hin; apply (cell0_first df r0 rs), Hcols; assumption).
  revert out; induction keys as [|k ks IH]; intros out Hk; simpl.
  - exists out; split; [reflexivity|]; rewrite app_nil_r; reflexivity.
  - assert (H0 : exists xs0, cell0 df "series" = Ok (VSeries xs0) /\ length xs0 = n).
    { rewrite (Hc "series") by (simpl; tauto).
      rewrite Hr in Hall; apply Forall_cons_iff in Hall; destruct Hall as [(xs & E & L) _].
      exists xs; rewrite E; auto. }
    rewrite (agg_ts_rows_eq df "region" k (rows df) None n (length (rows df)) 0) by
      (auto; lia || (apply Hcols; simpl; tauto)).
    destruct (Hk k (or_introl eq_refl)) as (r & Hin & Heq).
    rewrite fold_acc_add_nonempty.
    2: { intros E; apply map_eq_nil in E.
         assert (Hf : In r (filter (fun r => py_eq (r "region") k) (rows df)))
           by (apply filter_In; auto).
         rewrite E in Hf; exact Hf. }
    cbn [bind]; unfold ts_new_row.
    rewrite (Hc "timeindex_start"), (Hc "timeindex_stop"), (Hc "timeindex_resolution")
      by (simpl; tauto).
    cbn [bind].
    match goal with |- context [agg_ts_keys df "region" ks ?o] =>
      destruct (IH o) as (out' & E & V) end.
    { intros k' Hk'; apply Hk; right; exact Hk'. }
    exists out'; split; [exact E|].
    rewrite V; simpl; rewrite map_app, <- app_assoc; reflexivity.
Qed.

(** C7 (amended).  For a table recognised as time series whose rows all
    hold a series of one length [n], whose region cells are neither NaN
    nor lists, and whose series values, times the number of rows, stay
    within 2^53 in magnitude (so that numpy adds them exactly, whatever
    their dtype), [df_agg df "region"] succeeds with one row per distinct region, in
    order of first occurrence: region the key value, var_name
    "Aggregated by region", series the element-wise sum of the series of
    the rows of that region, var_unit "-", and time fields copied from the
    first row [r0] of the whole table (lines 719-721 read [df[...][0]]),
    not from the first row of the group. *)
Theorem df_agg_timeseries_by_region (df : frame) (r0 : row) (rs : list row) (n : nat) :
  classify df = Ok TimeSeries ->
  rows df = r0 :: rs ->
  Forall (series_len n) (rows df) ->
  Forall (fun r => py_eq (r "region") (r "region") = true) (rows df) ->
  forallb hashable (map (fun r => r "region") (rows df)) = true ->
  small_column df "series" = true ->
  exists out, df_agg df "region" = Ok out /\
    map ts_view (rows out) =
      map (ts_expected r0 n (rows df)) (dedup_aux [] (map (fun r => r "region") (rows df))).
Proof.
  intros Hcl Hr Hall Hrefl Hh Hsm.
  assert (Hcols : forall c, In c required_ts -> In c (columns df))
    by (intros c; apply classify_ts_columns, Hcl).
  assert (Hreg : In "region" (columns df)) by (apply Hcols; simpl; tauto).
  unfold df_agg; rewrite Hcl; cbn [bind agg_options].
  rewrite (proj2 (str_in_In _ _) Hreg); cbn [negb str_in existsb String.eqb].
  rewrite (column_present df "region" (proj2 (str_in_In _ _) Hreg)); cbn [bind].
  rewrite (dedup_ok _ Hh); cbn [bind].
  destruct (agg_ts_keys_eq df r0 rs n (dedup_aux [] (map (fun r => r "region") (rows df)))
              (mk_frame (columns df) []) Hr Hcols Hall (small_series df n Hall Hsm)) as (out & E & V).
  - intros k Hk; apply dedup_aux_incl, in_map_iff in Hk.
    destruct Hk as (r & <- & Hin); exists r; split; [exact Hin|].
    rewrite Forall_forall in Hrefl; apply Hrefl, Hin.
  - exists out; split; [exact E | exact V].
Qed.

Lemma df_agg_timeseries_by_region_witness :
  exists out, df_agg regional_ts "region" = Ok out /\
    map ts_view (rows out) =
      map (ts_expected (ts_row_in "BB" "a" 0 20 10 [1; 2; 3]) 3 (rows regional_ts))
        (dedup_aux [] (map (fun r => r "region") (rows regional_ts))).
Proof.
  apply (df_agg_timeseries_by_region regional_ts _
           [ts_row_in "BE" "b" 100 120 10 [4; 5; 6]; ts_row_in "BB" "c" 0 20 10 [7; 8; 9]] 3).
  - vm_compute; reflexivity.
  - reflexivity.
  - repeat constructor; eexists; split; reflexivity.
  - repeat constructor.
  - reflexivity.
  - vm_compute; reflexivity.
Defined.

(** C7, counterexample.  The rows of region BE all start at 100, but the
    aggregated BE row gets the start 0 of the first row of the table. *)
Lemma df_agg_ts_time_fields_from_table_start :
  match df_agg regional_ts "region" with
  | Ok f => map (fun r => (r "region", r "timeindex_start", r "series")) (rows f) =
              [(VStr "BB", VNum 0, VSeries [Num 8; Num 10; Num 12]);
               (VStr "BE", VNum 0, VSeries [Num 4; Num 5; Num 6])] /\
            map (fun r => r "timeindex_start")
              (filter (fun r => py_eq (r "region") (VStr "BE")) (rows regional_ts)) = [VNum 100]
  | Err _ => False
  end.
Proof. vm_compute; split; reflexivity. Qed.

(** ** C4: the checks of the time fields in [unstack_timeseries] *)


(** Every cell of the field [c] equals (by [==]) the one of the first row [r0]. *)
Definition field_consistent (df : frame) (r0 : row) (c : string) : bool :=
  forallb (fun r => py_eq (r c) (r0 c)) (rows df).

(** A str or a number: a cell that is neither missing nor a list. *)
Definition present (v : value) : bool :=
  match v with VStr _ | VNum _ => true | _ => false end.

(** The field [c] passes [check_consistency_timeindex]. *)
Definition field_ok (df : frame) (r0 : row) (c : string) : bool :=
  field_consistent df r0 c && present (r0 c).







Lemma forallb_map_comm {A B} (f : B -> bool) (g : A -> B) l :
  forallb f (map g l) = forallb (fun x => f (g x)) l.
Proof. induction l as [|x l IH]; simpl; [reflexivity|rewrite IH; reflexivity]. Qed.

Lemma check_consistency_eq df r0 rs c :
  rows df = r0 :: rs -> In c (columns df) -> hashable (r0 c) = true ->
  check_consistency_timeindex df c =
    if field_ok df r0 c then Ok (r0 c) else Err (InconsistentTimeIndex (time_field_name c)).
Proof.
  intros Hr Hc Hh; unfold check_consistency_timeindex, field_ok, field_consistent.
  rewrite (column_present df c (proj2 (str_in_In _ _) Hc)); cbn [bind].
  rewrite Hr; unfold py_index; simpl nth_error; cbn [bind].
  destruct (r0 c) eqn:E; simpl in Hh; try discriminate; cbn [array_eq_all bind present];
    rewrite ?andb_false_r, ?andb_true_r; try reflexivity;
    rewrite forallb_map_comm; destruct (forallb _ _); reflexivity.
Qed.

Lemma check_ok df r0 rs c :
  rows df = r0 :: rs -> In c (columns df) -> field_ok df r0 c = true ->
  check_consistency_timeindex df c = Ok (r0 c).
Proof.
  intros Hr Hc Hok; rewrite (check_consistency_eq df r0 rs c Hr Hc), Hok; [reflexivity|].
  unfold field_ok in Hok; apply andb_prop in Hok; destruct Hok as [_ Hn].
  destruct (r0 c); simpl in Hn |- *; congruence.
Qed.










(** ** C8: the region read off var_name *)

(** The region code that C8 describes for a var_name. *)
Definition spec_region (s : string) : option string :=
  if contains "BE" s && contains "BB" s then Some "BE_BB"
  else if contains "BE" s then Some "BE"
  else if contains "BB" s then Some "BB"
  else None.

Definition region_value (s : string) : value :=
  match spec_region s with Some c => VStr c | None => VNone end.

Definition has_region (s : string) : bool :=
  match spec_region s with Some _ => true | None => false end.

(** Stacked tables without region and id, as read from a csv file. *)
Definition sample_regions : frame :=
  mk_frame stacked_cols
    [ts_row "BB-electricity-demand" 0 20 10 [1; 2; 3];
     ts_row "BE-BB-transmission" 0 20 10 [4; 5; 6];
     ts_row "BE-heat-demand" 0 20 10 [7; 8; 9]].

Definition sample_no_region_code : frame :=
  mk_frame stacked_cols
    [ts_row "BB-electricity-demand" 0 20 10 [1; 2; 3];
     ts_row "DE-electricity-demand" 0 20 10 [4; 5; 6]].

(** A stacked table with [id_ts] but no region column. *)
Definition with_id_no_region : frame :=
  mk_frame (["id_ts"] ++ stacked_cols)%list
    [fun c => if String.eqb c "id_ts" then VNum 0 else ts_row "BB-electricity-demand" 0 20 10 [1; 2; 3] c].

(** [df[c] = [np.nan] * len(df)] *)
Definition add_nan_column (df : frame) (c : string) : frame :=
  add_column df c (repeat VNaN (length (rows df))).

(** [np.arange(0, len(df))] *)
Definition id_values (df : frame) : list value :=
  map (fun i => VNum (Z.of_nat i)) (seq 0 (length (rows df))).

Lemma region_of_var_name_str s :
  region_of_var_name (VStr s) =
    match spec_region s with Some c => Ok (VStr c) | None => Err MissingRegion end.
Proof.
  unfold region_of_var_name, spec_region; cbn [cell_contains bind].
  destruct (contains "BE" s), (contains "BB" s); reflexivity.
Qed.

Lemma mapM_region_ok vns :
  (forall s, In s vns -> spec_region s <> None) ->
  mapM region_of_var_name (map VStr vns) = Ok (map region_value vns).
Proof.
  induction vns as [|s vns IH]; intros H; simpl; [reflexivity|].
  rewrite region_of_var_name_str; unfold region_value.
  destruct (spec_region s) as [c|] eqn:E; [|exfalso; exact (H s (or_introl eq_refl) E)].
  cbn [bind]; rewrite IH by (intros; apply H; right; assumption); reflexivity.
Qed.

Lemma mapM_region_missing vns :
  (exists s, In s vns /\ spec_region s = None) ->
  mapM region_of_var_name (map VStr vns) = Err MissingRegion.
Proof.
  induction vns as [|s vns IH]; intros (s' & Hin & Hs); simpl in *; [contradiction|].
  rewrite region_of_var_name_str.
  destruct (spec_region s) as [c|] eqn:E; [|reflexivity].
  destruct Hin as [->|Hin]; [congruence|].
  cbn [bind]; rewrite IH by eauto; reflexivity.
Qed.

Lemma add_column_length df c vals :
  length vals = length (rows df) -> length (rows (add_column df c vals)) = length (rows df).
Proof. intros H; simpl; rewrite length_map, length_combine, H; apply Nat.min_id. Qed.

Lemma add_column_other df c vals c' :
  c' <> c -> length vals = length (rows df) ->
  map (fun r => r c') (rows (add_column df c vals)) = map (fun r => r c') (rows df).
Proof.
  intros Hc; simpl; destruct df as [cols rs]; simpl; revert vals.
  induction rs as [|r rs IH]; intros [|v vals] H; simpl in *; try discriminate; [reflexivity|].
  apply String.eqb_neq in Hc; rewrite Hc, IH by congruence; reflexivity.
Qed.

Lemma add_column_new df c vals :
  length vals = length (rows df) -> map (fun r => r c) (rows (add_column df c vals)) = vals.
Proof.
  destruct df as [cols rs]; simpl; revert vals.
  induction rs as [|r rs IH]; intros [|v vals] H; simpl in *; try discriminate; [reflexivity|].
  rewrite String.eqb_refl, IH by congruence; reflexivity.
Qed.

Lemma complete_no_region_eq df :
  columns df = remove_first "region" required_ts ->
  complete_timeseries df =
    let df1 := add_column df "id_ts" (id_values df) in
    match mapM region_of_var_name (map (fun r => r "var_name") (rows df1)) with
    | Err e => Err e
    | Ok region =>
        Ok (mk_frame header_ts
              (rows (add_nan_column (add_nan_column (add_nan_column
                       (add_column df1 "region" region) "var_unit") "source") "comment")))
    end.
Proof.
  destruct df as [cols rs]; simpl; intros ->; unfold complete_timeseries; simpl.
  destruct (mapM region_of_var_name _); reflexivity.
Qed.

Lemma add_nan_column_other df c c' :
  c' <> c -> map (fun r => r c') (rows (add_nan_column df c)) = map (fun r => r c') (rows df).
Proof. intros H; apply add_column_other; [exact H | apply repeat_length]. Qed.

(** A table without region whose columns are not exactly the five stacked
    ones is not completed: its header is selected as it is. *)
Lemma complete_other_columns df :
  str_in "region" (columns df) = false -> columns df <> remove_first "region" required_ts ->
  complete_timeseries df = select_columns df header_ts.
Proof.
  intros Hr Hc; unfold complete_timeseries; rewrite headers_timeseries;
    cbn [bind header optional_header required_header].
  replace (list_eqb (columns df) required_ts) with false.
  2: { symmetry; apply not_true_iff_false; intros E; apply list_eqb_true in E.
       rewrite E in Hr; discriminate. }
  replace (list_eqb (columns df) (remove_first "region" required_ts)) with false.
  2: { symmetry; apply not_true_iff_false; intros E; apply list_eqb_true in E; contradiction. }
  reflexivity.
Qed.

(** C8 (amended).  Let the table have no region column.  Completion derives
    the region only when its columns are exactly var_name, timeindex_start,
    timeindex_stop, timeindex_resolution, series (in this order).  With any
    other columns nothing is derived: selecting the header fails with a
    KeyError on the header columns the table lacks, region among them (the
    model names the first of them in header order, id_ts when it is absent
    too).  With exactly those five columns and string var_names, the table
    is completed to the full header and the region of each row is "BE_BB"
    when its var_name contains both "BE" and "BB", the one of them it
    contains otherwise, and when some var_name contains neither the
    completion fails with MissingRegion. *)
Theorem complete_timeseries_region (df : frame) :
  str_in "region" (columns df) = false ->
  (columns df <> remove_first "region" required_ts ->
     In "region" (filter (fun c => negb (str_in c (columns df))) header_ts) /\
     complete_timeseries df =
       Err (KeyErr (hd "" (filter (fun c => negb (str_in c (columns df))) header_ts)))) /\
  (columns df = remove_first "region" required_ts ->
   forall vns : list string, map (fun r => r "var_name") (rows df) = map VStr vns ->
   (forallb has_region vns = true ->
      exists out, complete_timeseries df = Ok out /\ columns out = header_ts /\
        map (fun r => r "region") (rows out) = map region_value vns) /\
   (existsb (fun s => negb (has_region s)) vns = true ->
      complete_timeseries df = Err MissingRegion)).
Proof.
  intros Hreg; split.
  { intros Hc; rewrite (complete_other_columns df Hreg Hc); unfold select_columns.
    assert (Hin : In "region" (filter (fun c => negb (str_in c (columns df))) header_ts)).
    { apply filter_In; split; [simpl; tauto | rewrite Hreg; reflexivity]. }
    destruct (filter (fun c => negb (str_in c (columns df))) header_ts) as [|c l];
      [contradiction | split; [exact Hin | reflexivity]]. }
  intros Hc vns Hvn.
  assert (Hid : length (id_values df) = length (rows df))
    by (unfold id_values; rewrite length_map, length_seq; reflexivity).
  assert (Hlen : length vns = length (rows df))
    by (rewrite <- (length_map VStr vns), <- Hvn, length_map; reflexivity).
  rewrite (complete_no_region_eq df Hc); cbv zeta.
  rewrite (add_column_other df "id_ts" (id_values df) "var_name") by (try discriminate; exact Hid).
  rewrite Hvn; split.
  - intros Hall; rewrite (mapM_region_ok vns).
    2: { intros s Hs; rewrite forallb_forall in Hall; specialize (Hall s Hs).
         unfold has_region in Hall; destruct (spec_region s); congruence. }
    eexists; split; [reflexivity | split; [reflexivity|]]; cbn [rows].
    rewrite !add_nan_column_other by discriminate.
    apply add_column_new.
    rewrite length_map, add_column_length by exact Hid; exact Hlen.
  - intros Hex; rewrite (mapM_region_missing vns); [reflexivity|].
    apply existsb_exists in Hex; destruct Hex as (s & Hs & Hn); exists s; split; [exact Hs|].
    unfold has_region in Hn; destruct (spec_region s); simpl in Hn; congruence.
Qed.

Lemma complete_timeseries_region_witness :
  (exists out, complete_timeseries sample_regions = Ok out /\ columns out = header_ts /\
     map (fun r => r "region") (rows out) = [VStr "BB"; VStr "BE_BB"; VStr "BE"]) /\
  complete_timeseries sample_no_region_code = Err MissingRegion /\
  complete_timeseries with_id_no_region = Err (KeyErr "region").
Proof.
  split; [|split].
  - destruct (complete_timeseries_region sample_regions) as (_ & H); [reflexivity|].
    apply (H eq_refl ["BB-electricity-demand"; "BE-BB-transmission"; "BE-heat-demand"] eq_refl).
    vm_compute; reflexivity.
  - destruct (complete_timeseries_region sample_no_region_code) as (_ & H); [reflexivity|].
    apply (H eq_refl ["BB-electricity-demand"; "DE-electricity-demand"] eq_refl).
    vm_compute; reflexivity.
  - destruct (complete_timeseries_region with_id_no_region) as (H & _); [reflexivity|].
    apply H; discriminate.
Defined.

(** C8, counterexample.  A table with id_ts but no region column is not
    completed: no region is derived, and selecting the header fails on the
    missing column region (a KeyError, not MissingRegion). *)
Lemma region_not_derived_with_id :
  str_in "region" (columns with_id_no_region) = false /\
  complete_timeseries with_id_no_region = Err (KeyErr "region").
Proof. vm_compute; split; reflexivity. Qed.

(** ** C5: stack_timeseries *)

(** The cells of a stacked row that C5 is about. *)
Definition stack_view (r : row) : value * value * value * value * value :=
  (r "var_name", r "timeindex_start", r "timeindex_stop", r "timeindex_resolution", r "series").

(** A wide table indexed by descending dates, with its frequency set. *)
Definition descending_wide : wide :=
  mk_wide (DatetimeIndex [20; 10; 0] (Some (-10))) [(VStr "a", [Num 1; Num 2; Num 3])].

(** A wide table indexed by two dates. *)
Definition two_dates_wide : wide :=
  mk_wide (DatetimeIndex [0; 10] (Some 10)) [(VStr "a", [Num 1; Num 2])].

(** Two columns of three values. *)
Definition wide_sample_cols : list (value * list num) :=
  [(VStr "a", [Num 1; Num 2; Num 3]); (VStr "b", [Num 4; Num 5; Num 6])].

(** The dates never decrease, or never increase. *)
Definition monotonic (ts : list Z) : bool :=
  forallb (fun d => 0 <=? d) (deltas ts) || forallb (fun d => d <=? 0) (deltas ts).

(** No date occurs twice. *)
Fixpoint nodup_dates (ts : list Z) : bool :=
  match ts with
  | [] => true
  | t :: ts' => negb (existsb (Z.eqb t) ts') && nodup_dates ts'
  end.

(** Three dates that go back and forth. *)
Definition zigzag_wide : wide :=
  mk_wide (DatetimeIndex [0; 20; 10] None) [(VStr "a", [Num 1; Num 2; Num 3])].

Lemma arange_cons t f n : arange t f (S n) = t :: arange (t + f) f n.
Proof.
  unfold arange; simpl seq; rewrite <- seq_shift; cbn [map]; rewrite map_map.
  f_equal; [lia|]. apply map_ext; intros i; lia.
Qed.

Lemma arange_length t f n : length (arange t f n) = n.
Proof. unfold arange; rewrite length_map, length_seq; reflexivity. Qed.

Lemma arange_nth t f n i d : (i < n)%nat -> nth i (arange t f n) d = t + Z.of_nat i * f.
Proof.
  revert t i; induction n as [|n IH]; intros t i H; [lia|].
  rewrite arange_cons; destruct i as [|i]; simpl nth; [lia|].
  rewrite IH by lia; lia.
Qed.

Lemma deltas_cons2 a b l : deltas (a :: b :: l) = (b - a) :: deltas (b :: l).
Proof. reflexivity. Qed.

Lemma arange_deltas t f n : deltas (arange t f n) = repeat f (n - 1).
Proof.
  revert t; induction n as [|n IH]; intros t; [reflexivity|].
  destruct n as [|n]; [reflexivity|].
  rewrite arange_cons, arange_cons, deltas_cons2, <- arange_cons, IH.
  simpl; f_equal; [lia | rewrite Nat.sub_0_r; reflexivity].
Qed.

Lemma arange_infer_freq t f n : f <> 0 -> (3 <= n)%nat -> infer_freq (arange t f n) = Ok (Some f).
Proof.
  intros Hf Hn; unfold infer_freq; rewrite arange_length, arange_deltas.
  destruct (Nat.ltb_spec n 3); [lia|].
  destruct (n - 1)%nat as [|k] eqn:E; [lia|]; cbn [repeat].
  replace (f =? 0) with false by (symmetry; apply Z.eqb_neq; exact Hf).
  replace (forallb (Z.eqb f) (repeat f k)) with true; [reflexivity|].
  symmetry; apply forallb_forall; intros x Hx; apply repeat_spec in Hx; subst; apply Z.eqb_refl.
Qed.

Lemma arange_min t f m a : 0 < f -> fold_left Z.min (arange t f (S m)) a = Z.min a t.
Proof.
  revert t a; induction m as [|m IH]; intros t a Hf; [simpl; lia|].
  rewrite arange_cons; cbn [fold_left]; rewrite IH by exact Hf; lia.
Qed.

Lemma arange_max t f m a : 0 < f -> fold_left Z.max (arange t f (S m)) a = Z.max a (t + Z.of_nat m * f).
Proof.
  revert t a; induction m as [|m IH]; intros t a Hf; [simpl; lia|].
  rewrite arange_cons; cbn [fold_left]; rewrite IH by exact Hf; lia.
Qed.

Lemma arange_last t f m d : last (arange t f (S m)) d = t + Z.of_nat m * f.
Proof.
  revert t; induction m as [|m IH]; intros t; [simpl; lia|].
  rewrite arange_cons, (arange_cons (t + f)).
  transitivity (last ((t + f) :: arange (t + f + f) f m) d); [reflexivity|].
  rewrite <- arange_cons, IH; lia.
Qed.

Lemma arange_date_range t f m :
  0 < f -> date_range (list_min (arange t f (S m))) (list_max (arange t f (S m))) f = Ok (arange t f (S m)).
Proof.
  intros Hf; unfold list_min, list_max; rewrite arange_min, arange_max by exact Hf.
  rewrite arange_cons; cbn [hd]; rewrite <- arange_cons.
  rewrite Z.min_id; unfold date_range.
  replace (0 <? f) with true by (symmetry; apply Z.ltb_lt; exact Hf).
  replace (t <=? Z.max t (t + Z.of_nat m * f)) with true by (symmetry; apply Z.leb_le; lia).
  replace (Z.max t (t + Z.of_nat m * f) - t) with (Z.of_nat m * f) by lia.
  rewrite Z.div_mul by lia; rewrite Nat2Z.id, Nat.add_1_r; reflexivity.
Qed.

Lemma nth_map_lt {A B} (g : A -> B) l i d d0 : (i < length l)%nat -> nth i (map g l) d = g (nth i l d0).
Proof.
  revert i; induction l as [|x l IH]; intros [|i] H; simpl in *; try lia; [reflexivity|].
  apply IH; lia.
Qed.

Lemma arange_find_pos t f n i : 0 < f -> (i < n)%nat -> find_pos (t + Z.of_nat i * f) (arange t f n) = Some i.
Proof.
  revert t i; induction n as [|n IH]; intros t i Hf Hi; [lia|].
  rewrite arange_cons; cbn [find_pos]; destruct i as [|i].
  - replace (t =? t + Z.of_nat 0 * f) with true by (symmetry; apply Z.eqb_eq; lia); reflexivity.
  - replace (t =? t + Z.of_nat (S i) * f) with false by (symmetry; apply Z.eqb_neq; lia).
    replace (t + Z.of_nat (S i) * f) with (t + f + Z.of_nat i * f) by lia.
    rewrite IH by lia; reflexivity.
Qed.

Lemma arange_reindex t f n xs :
  0 < f -> length xs = n ->
  map (fun u => match find_pos u (arange t f n) with Some i => nth i xs NaN | None => NaN end)
      (arange t f n) = xs.
Proof.
  intros Hf Hl; apply nth_ext with (d := NaN) (d' := NaN); [rewrite length_map, arange_length; auto|].
  intros i Hi; rewrite length_map, arange_length in Hi.
  rewrite (nth_map_lt _ _ _ _ 0) by (rewrite arange_length; exact Hi).
  rewrite arange_nth, arange_find_pos by assumption; reflexivity.
Qed.

(** [asfreq] leaves a table on an evenly spaced ascending index as it is. *)
Lemma asfreq_arange t f m cols :
  0 < f -> Forall (fun p => length (snd p) = S m) cols ->
  asfreq f (arange t f (S m)) cols = Ok (arange t f (S m), cols).
Proof.
  intros Hf Hc; unfold asfreq; rewrite arange_date_range by exact Hf; cbn [bind].
  f_equal; f_equal.
  rewrite <- (map_id cols) at 2; apply map_ext_in; intros [c xs] Hin; cbn [fst snd].
  rewrite Forall_forall in Hc; specialize (Hc _ Hin); simpl in Hc.
  rewrite arange_reindex by assumption; reflexivity.
Qed.

Lemma label_eqb_refl a : label_eqb a a = true.
Proof. unfold label_eqb; destruct (value_eq_dec a a); congruence. Qed.

Lemma wide_col_in cols p : NoDup (map fst cols) -> In p cols -> wide_col cols (fst p) = Ok (snd p).
Proof.
  induction cols as [|[c xs] cols IH]; intros Hnd Hin; [contradiction|].
  simpl in Hnd; apply NoDup_cons_iff in Hnd; destruct Hnd as [Hn Hnd].
  unfold wide_col; cbn [find fst snd].
  destruct Hin as [<-|Hin]; [rewrite label_eqb_refl; reflexivity|].
  unfold label_eqb at 1; destruct (value_eq_dec c (fst p)) as [->|_]; [|apply IH; assumption].
  exfalso; apply Hn, in_map, Hin.
Qed.

Lemma deltas_const ts d :
  (forall x, In x (deltas ts) -> x = d) -> ts = arange (hd 0 ts) d (length ts).
Proof.
  induction ts as [|a [|b l] IH]; intros H; [reflexivity | unfold arange; simpl; f_equal; lia |].
  rewrite deltas_cons2 in H.
  assert (Hb : b = a + d) by (specialize (H (b - a) (or_introl eq_refl)); lia).
  assert (IH' := IH (fun x Hx => H x (or_intror Hx))).
  cbn [hd length] in *. rewrite arange_cons, <- Hb, <- IH'; reflexivity.
Qed.

Lemma arange_nodup t d n : d <> 0 -> nodup_dates (arange t d n) = true.
Proof.
  intros Hd; revert t; induction n as [|n IH]; intros t; [reflexivity|].
  rewrite arange_cons; cbn [nodup_dates]; rewrite IH, andb_true_r.
  destruct (existsb (Z.eqb t) (arange (t + d) d n)) eqn:E; [|reflexivity].
  apply existsb_exists in E; destruct E as (x & Hx & Ex); apply Z.eqb_eq in Ex; subst x.
  unfold arange in Hx; apply in_map_iff in Hx; destruct Hx as (i & Hi & _).
  exfalso; apply Hd. nia.
Qed.

Lemma arange_monotonic t d n : monotonic (arange t d n) = true.
Proof.
  unfold monotonic; rewrite arange_deltas.
  destruct (Z.leb_spec 0 d).
  - apply orb_true_intro; left; apply forallb_forall; intros x Hx; apply repeat_spec in Hx; subst; lia.
  - apply orb_true_intro; right; apply forallb_forall; intros x Hx; apply repeat_spec in Hx; subst; lia.
Qed.

(** pandas infers a frequency only for a monotonic index without repeated
    dates; so does the model. *)
Lemma infer_freq_some ts d :
  infer_freq ts = Ok (Some d) -> monotonic ts && nodup_dates ts = true.
Proof.
  unfold infer_freq; destruct (length ts <? 3)%nat; [discriminate|].
  destruct (deltas ts) as [|d0 ds] eqn:E; [discriminate|].
  destruct ((d0 =? 0) || negb (forallb (Z.eqb d0) ds)) eqn:Ec; intros [=]; subst d0.
  apply orb_false_elim in Ec; destruct Ec as [Hd Hall].
  apply Z.eqb_neq in Hd; apply negb_false_iff in Hall; rewrite forallb_forall in Hall.
  rewrite (deltas_const ts d).
  - rewrite arange_monotonic, arange_nodup by exact Hd; reflexivity.
  - rewrite E; intros x [<-|Hx]; [reflexivity|]; symmetry; apply Z.eqb_eq, Hall, Hx.
Qed.

Lemma mapM_fst {A B C} (f : A -> result C) (g : A * B -> C) (l : list (A * B)) :
  (forall p, In p l -> f (fst p) = Ok (g p)) -> mapM f (map fst l) = Ok (map g l).
Proof.
  induction l as [|p l IH]; intros H; simpl; [reflexivity|].
  rewrite (H p (or_introl eq_refl)); cbn [bind].
  rewrite IH by (intros; apply H; right; assumption); reflexivity.
Qed.

Lemma mapM_err {A B} (f : A -> result B) l e : mapM f l = Err e -> exists x, In x l /\ f x = Err e.
Proof.
  induction l as [|x l IH]; simpl; [discriminate|].
  destruct (f x) as [y|e'] eqn:E; cbn [bind]; [|intros [= <-]; eauto].
  destruct (mapM f l); cbn [bind]; [discriminate|].
  intros H; destruct (IH H) as (z & Hz & Ez); eauto.
Qed.

Lemma infer_freq_err ts e : infer_freq ts = Err e -> e = TooFewDates.
Proof.
  unfold infer_freq; destruct (length ts <? 3)%nat; [congruence|].
  destruct (deltas ts); discriminate.
Qed.

Lemma date_range_err a b c e : date_range a b c = Err e -> e = ZeroFrequency.
Proof. unfold date_range; destruct (0 <? c); [discriminate|]; destruct (c <? 0); congruence. Qed.

Lemma py_index_err {A} (l : list A) i e : py_index l i = Err e -> e = IndexErr.
Proof. unfold py_index; destruct (nth_error l i); congruence. Qed.

Lemma wide_col_err cols c e : wide_col cols c = Err e -> e = Unrepresented.
Proof. unfold wide_col; destruct (find _ cols) as [[]|]; congruence. Qed.

(** Every failure of [stack_timeseries] on a DatetimeIndex is one of
    these; none of them is NotTimeIndexed. *)
Lemma stack_datetime_errors ts fr cols e :
  stack_timeseries (mk_wide (DatetimeIndex ts fr) cols) = Err e ->
  e = TooFewDates \/ e = NoFixedFrequency \/ e = ZeroFrequency \/ e = IndexErr \/
  e = Unrepresented.
Proof.
  unfold stack_timeseries; cbn [w_index w_columns].
  destruct (infer_freq ts) as [[f|]|e'] eqn:E1; cbn [bind].
  2: intros [= <-]; auto.
  2: intros [= <-]; left; exact (infer_freq_err _ _ E1).
  destruct (match fr with
            | Some g => Ok (ts, cols, g)
            | None => let* p := asfreq f ts cols in Ok (fst p, snd p, f)
            end) as [[[ts' cols'] res]|e'] eqn:E2; cbn [bind].
  2: { intros [= <-]; destruct fr; [discriminate|].
       unfold asfreq in E2; destruct (date_range _ _ _) eqn:E3; [discriminate|].
       cbn [bind] in E2; injection E2 as <-; apply date_range_err in E3; auto. }
  destruct (py_index ts' 0) as [t0|e'] eqn:E3; cbn [bind].
  2: intros [= <-]; apply py_index_err in E3; auto.
  destruct (mapM _ _) as [rs|e'] eqn:E4; cbn [bind]; [discriminate|].
  intros [= <-]; apply mapM_err in E4; destruct E4 as (c & _ & Ec).
  destruct (wide_col cols' c) eqn:E5; cbn [bind] in Ec; [discriminate|].
  injection Ec as <-; apply wide_col_err in E5; auto 10.
Qed.

Lemma stack_arange t f m fr cols :
  0 < f -> (2 <= m)%nat ->
  Forall (fun p => length (snd p) = S m) cols -> NoDup (map fst cols) ->
  exists out, stack_timeseries (mk_wide (DatetimeIndex (arange t f (S m)) fr) cols) = Ok out /\
    columns out = stacked_cols /\
    map stack_view (rows out) =
      map (fun p => (fst p, VNum t, VNum (t + Z.of_nat m * f),
                     VNum (match fr with Some g => g | None => f end), VSeries (snd p))) cols.
Proof.
  intros Hf Hm Hlen Hnd.
  unfold stack_timeseries; cbn [w_index w_columns].
  rewrite arange_infer_freq by lia; cbn [bind].
  assert (Hp : forall res, exists out,
    (let* timeindex_start := py_index (arange t f (S m)) 0 in
     let timeindex_stop := last (arange t f (S m)) timeindex_start in
     let* rs := mapM (fun c =>
                  let* series := wide_col cols c in
                  Ok (row_of [("var_name", c); ("timeindex_start", VNum timeindex_start);
                              ("timeindex_stop", VNum timeindex_stop);
                              ("timeindex_resolution", VNum res); ("series", VSeries series)]))
                (map fst cols) in
     Ok (mk_frame stacked_cols rs)) = Ok out /\
    columns out = stacked_cols /\
    map stack_view (rows out) =
      map (fun p => (fst p, VNum t, VNum (t + Z.of_nat m * f), VNum res, VSeries (snd p))) cols).
  { intros res.
    replace (py_index (arange t f (S m)) 0) with (Ok t) by (rewrite arange_cons; reflexivity).
    cbn [bind]; rewrite arange_last.
    erewrite mapM_fst.
    2: { intros p Hin; rewrite (wide_col_in cols p Hnd Hin); cbn [bind]; reflexivity. }
    cbn [bind]; eexists; split; [reflexivity | split; [reflexivity|]].
    cbn [rows]; rewrite map_map; reflexivity. }
  destruct fr as [g|]; cbn [bind].
  - exact (Hp g).
  - rewrite asfreq_arange by assumption; cbn [bind fst snd]; exact (Hp f).
Qed.


(** C5 (amended).  [stack_timeseries] fails with NotTimeIndexed exactly
    when the index is not a DatetimeIndex, whatever its order; on a
    DatetimeIndex of fewer than three dates it fails with TooFewDates
    (pandas' "Need at least 3 dates"), and on one of at least three dates
    that is not monotonic or repeats a date, where pandas infers no
    frequency, with NoFixedFrequency.  On an evenly spaced ascending index of [S m >= 3]
    dates from [t] with step [f], and columns of that length with distinct
    names, it emits one row per column, in column order, with var_name the
    column name, start and stop the first and last dates, resolution the
    index's frequency attribute (the inferred step when it is unset), and
    series the column's values. *)
Theorem stack_timeseries_rows :
  (forall labels cols, stack_timeseries (mk_wide (OtherIndex labels) cols) = Err NotTimeIndexed) /\
  (forall ts fr cols, stack_timeseries (mk_wide (DatetimeIndex ts fr) cols) <> Err NotTimeIndexed) /\
  (forall ts fr cols, (length ts < 3)%nat ->
     stack_timeseries (mk_wide (DatetimeIndex ts fr) cols) = Err TooFewDates) /\
  (forall ts fr cols, (3 <= length ts)%nat -> monotonic ts && nodup_dates ts = false ->
     stack_timeseries (mk_wide (DatetimeIndex ts fr) cols) = Err NoFixedFrequency) /\
  (forall t f m fr cols, 0 < f -> (2 <= m)%nat ->
     Forall (fun p => length (snd p) = S m) cols -> NoDup (map fst cols) ->
     exists out, stack_timeseries (mk_wide (DatetimeIndex (arange t f (S m)) fr) cols) = Ok out /\
       columns out = stacked_cols /\
       map stack_view (rows out) =
         map (fun p => (fst p, VNum t, VNum (t + Z.of_nat m * f),
                        VNum (match fr with Some g => g | None => f end), VSeries (snd p))) cols).
Proof.
  split; [reflexivity|]. split.
  { intros ts fr cols H; destruct (stack_datetime_errors ts fr cols _ H) as [E|[E|[E|[E|E]]]];
      discriminate. }
  split.
  { intros ts fr cols H; unfold stack_timeseries, infer_freq; cbn [w_index].
    apply Nat.ltb_lt in H; rewrite H; reflexivity. }
  split.
  { intros ts fr cols Hn Hm; unfold stack_timeseries; cbn [w_index].
    destruct (infer_freq ts) as [[d|]|e] eqn:E; cbn [bind]; [| reflexivity |].
    - apply infer_freq_some in E; congruence.
    - unfold infer_freq in E; apply Nat.ltb_ge in Hn; rewrite Hn in E.
      destruct (deltas ts); discriminate. }
  intros t f m fr cols; apply stack_arange.
Qed.

Lemma stack_timeseries_rows_witness :
  (exists out,
     stack_timeseries (mk_wide (DatetimeIndex (arange 0 10 3) None) wide_sample_cols) = Ok out /\
     columns out = stacked_cols /\
     map stack_view (rows out) =
       [(VStr "a", VNum 0, VNum 20, VNum 10, VSeries [Num 1; Num 2; Num 3]);
        (VStr "b", VNum 0, VNum 20, VNum 10, VSeries [Num 4; Num 5; Num 6])]) /\
  stack_timeseries two_dates_wide = Err TooFewDates /\
  stack_timeseries zigzag_wide = Err NoFixedFrequency.
Proof.
  destruct stack_timeseries_rows as (_ & _ & H3 & H4 & H5); split; [|split].
  - apply (H5 0 10 2%nat None wide_sample_cols); [lia | lia | repeat constructor |].
    repeat constructor; simpl; intuition discriminate.
  - apply H3; simpl; lia.
  - apply H4; [simpl; lia | vm_compute; reflexivity].
Defined.

(** C5, counterexample.  An index of descending dates (with its frequency
    set) is stacked without NotTimeIndexed, start and stop being its first
    and last dates; and an index of two evenly spaced dates fails with
    TooFewDates, not NoFixedFrequency. *)
Lemma stack_descending_index_accepted :
  match stack_timeseries descending_wide with
  | Ok f => map stack_view (rows f) =
              [(VStr "a", VNum 20, VNum 0, VNum (-10), VSeries [Num 1; Num 2; Num 3])]
  | Err _ => False
  end /\
  stack_timeseries two_dates_wide = Err TooFewDates.
Proof. vm_compute; split; reflexivity. Qed.

(** ** C1: stacking an unstacked table *)

(** A stacked variable over two dates. *)
Definition two_step_stacked : frame :=
  mk_frame stacked_cols [ts_row "BB-electricity-demand" 0 10 10 [5; 6]].

(** Two variables, one series holding 2^53 + 1, the other a NaN: the array
    is a float64 one. *)
Definition float_coerced_stacked : frame :=
  mk_frame stacked_cols
    [ts_row "a" 0 20 10 [2 ^ 53 + 1; 1; 2];
     row_of [("var_name", VStr "b"); ("timeindex_start", VNum 0); ("timeindex_stop", VNum 20);
             ("timeindex_resolution", VNum 10); ("series", VSeries [NaN; Num 3; Num 4])]].

Lemma py_eq_vnum x z : py_eq x (VNum z) = true -> x = VNum z.
Proof. destruct x; simpl; try discriminate. intros H; apply Z.eqb_eq in H; subst; reflexivity. Qed.

Lemma date_range_pos t e f idx :
  0 < f -> date_range t e f = Ok idx -> idx <> [] ->
  idx = arange t f (S (Z.to_nat ((e - t) / f))).
Proof.
  intros Hf; unfold date_range.
  replace (0 <? f) with true by (symmetry; apply Z.ltb_lt; exact Hf).
  destruct (t <=? e); intros [= <-]; [rewrite Nat.add_1_r; reflexivity | congruence].
Qed.

Lemma date_range_shape t e f idx :
  date_range t e f = Ok idx -> idx <> [] -> exists m, idx = arange t f (S m).
Proof.
  unfold date_range; destruct (0 <? f); [|destruct (f <? 0)].
  - destruct (t <=? e); intros [= <-]; [|congruence].
    intros _; rewrite Nat.add_1_r; eexists; reflexivity.
  - destruct (e <=? t); intros [= <-]; [|congruence].
    intros _; rewrite Nat.add_1_r; eexists; reflexivity.
  - discriminate.
Qed.

Lemma round_f64_exact z : exact_range z = true -> round_f64 z = z.
Proof.
  unfold exact_range; intros H; apply Z.leb_le in H.
  destruct (Z.eq_dec (Z.abs z) (2 ^ 53)) as [E|E].
  - assert (Hz : z = 2 ^ 53 \/ z = - 2 ^ 53) by lia.
    destruct Hz as [-> | ->]; vm_compute; reflexivity.
  - unfold round_f64; replace (Z.log2 (Z.abs z) - 52 <=? 0) with true; [reflexivity|].
    symmetry; apply Z.leb_le.
    destruct (Z.eq_dec z 0) as [->|Hz]; [simpl; lia|].
    assert (Hlt : Z.log2 (Z.abs z) < 53) by (apply Z.log2_lt_pow2; lia).
    lia.
Qed.

Lemma coerce_exact d x : num_exact x = true -> coerce d x = x.
Proof.
  destruct d; destruct x as [z|]; simpl; try reflexivity.
  intros H; rewrite (round_f64_exact z H); reflexivity.
Qed.

Lemma mapM_as_series_lists xss : mapM as_series (map VSeries xss) = Ok xss.
Proof. induction xss as [|xs xss IH]; simpl; [reflexivity | rewrite IH; reflexivity]. Qed.

(** [np.array] of list cells of one length whose numbers float64 holds
    exactly: the lists come back unchanged, whatever the dtype. *)
Lemma np_array_lists xs0 xss :
  Forall (fun xs => length xs = length xs0) xss ->
  Forall (fun xs => forallb num_exact xs = true) (xs0 :: xss) ->
  np_array (map VSeries (xs0 :: xss)) = Ok (xs0 :: xss).
Proof.
  intros Hl He; unfold np_array; cbn [map].
  change (VSeries xs0 :: map VSeries xss) with (map VSeries (xs0 :: xss)).
  rewrite mapM_as_series_lists; cbn [bind].
  replace (forallb (fun xs => Nat.eqb (length xs) (length xs0)) xss) with true.
  2: { symmetry; apply forallb_forall; intros xs Hxs; apply Nat.eqb_eq.
       rewrite Forall_forall in Hl; apply Hl, Hxs. }
  f_equal; rewrite Forall_forall in He.
  transitivity (map (fun xs => xs) (xs0 :: xss)); [|apply map_id].
  apply map_ext_in; intros xs Hxs.
  transitivity (map (fun x => x) xs); [|apply map_id].
  apply map_ext_in; intros x Hx.
  apply coerce_exact; specialize (He xs Hxs); rewrite forallb_forall in He; apply He, Hx.
Qed.

Lemma mapM_as_series rs :
  Forall (fun r => r "series" = VSeries (series_of r)) rs ->
  mapM as_series (map (fun r => r "series") rs) = Ok (map series_of rs).
Proof.
  induction rs as [|r rs IH]; intros H; simpl; [reflexivity|].
  apply Forall_cons_iff in H; destruct H as [H1 H2].
  rewrite H1; cbn [as_series bind]; rewrite IH by exact H2; reflexivity.
Qed.

Lemma mapM_as_str names : mapM as_str (map VStr names) = Ok names.
Proof. induction names as [|s names IH]; simpl; [reflexivity | rewrite IH; reflexivity]. Qed.

Lemma mapM_as_label names : forallb hashable names = true -> mapM as_label names = Ok names.
Proof.
  induction names as [|v names IH]; intros H; [reflexivity|].
  cbn [forallb] in H; apply andb_prop in H; destruct H as [H1 H2].
  destruct v; try discriminate; cbn [mapM as_label bind]; rewrite (IH H2); reflexivity.
Qed.

Lemma map_fst_combine {A B} (l : list A) (l' : list B) :
  length l = length l' -> map fst (combine l l') = l.
Proof.
  revert l'; induction l as [|x l IH]; intros [|y l'] H; simpl in *; try discriminate; [reflexivity|].
  rewrite IH by congruence; reflexivity.
Qed.

Lemma pairs_combine rs names :
  map (fun r => r "var_name") rs = names ->
  Forall (fun r => r "series" = VSeries (series_of r)) rs ->
  map (fun r => (r "var_name", r "series")) rs =
    map (fun p => (fst p, VSeries (snd p))) (combine names (map series_of rs)).
Proof.
  intros <-; induction rs as [|r rs IH]; intros Hs; simpl; [reflexivity|].
  apply Forall_cons_iff in Hs; destruct Hs as [Hs1 Hs2].
  rewrite Hs1, (IH Hs2); reflexivity.
Qed.

(** Stacking an index of [S m >= 3] evenly spaced dates, ascending or
    descending, whose frequency attribute is set. *)
Lemma stack_arange_set t f m g cols :
  f <> 0 -> (2 <= m)%nat -> NoDup (map fst cols) ->
  exists out, stack_timeseries (mk_wide (DatetimeIndex (arange t f (S m)) (Some g)) cols) = Ok out /\
    map stack_view (rows out) =
      map (fun p => (fst p, VNum t, VNum (t + Z.of_nat m * f), VNum g, VSeries (snd p))) cols.
Proof.
  intros Hf Hm Hnd.
  unfold stack_timeseries; cbn [w_index w_columns].
  rewrite arange_infer_freq by lia; cbn [bind].
  replace (py_index (arange t f (S m)) 0) with (Ok t) by (rewrite arange_cons; reflexivity).
  cbn [bind]; rewrite arange_last.
  erewrite mapM_fst.
  2: { intros p Hin; rewrite (wide_col_in cols p Hnd Hin); cbn [bind]; reflexivity. }
  cbn [bind]; eexists; split; [reflexivity|].
  cbn [rows]; rewrite map_map; reflexivity.
Qed.

(** C1 (amended).  Let the stacked table [df] have at least one row, the
    stacked columns, in every row the start [t], stop [e] and resolution
    [f <> 0] (as numbers), series whose length is the number of dates of
    [date_range t e f], at least three, and whose numbers float64 holds
    exactly ([|z| <= 2^53]; NaN allowed), and distinct var_names none of
    which is a list.  Then [unstack_timeseries df] succeeds, stacking the
    result succeeds, and the stacked table has the var_names and the series
    of [df], in the order of [df]. *)
Theorem stack_unstack_roundtrip (df : frame) (t e f : Z) (idx : list Z) (names : list value) :
  (0 < length (rows df))%nat ->
  forallb (fun c => str_in c (columns df)) stacked_cols = true ->
  forallb (fun r => py_eq (r "timeindex_start") (VNum t) && py_eq (r "timeindex_stop") (VNum e) &&
                    py_eq (r "timeindex_resolution") (VNum f)) (rows df) = true ->
  f <> 0 ->
  date_range t e f = Ok idx -> (3 <= length idx)%nat ->
  forallb (fun r => match r "series" with
                    | VSeries xs => Nat.eqb (length xs) (length idx) && forallb num_exact xs
                    | _ => false
                    end) (rows df) = true ->
  map (fun r => r "var_name") (rows df) = names -> forallb hashable names = true -> NoDup names ->
  exists w out, unstack_timeseries df = Ok w /\ stack_timeseries w = Ok out /\
    map (fun r => (r "var_name", r "series")) (rows out) =
      map (fun r => (r "var_name", r "series")) (rows df).
Proof.
  intros Hne Hcols Htime Hf Hdr Hidx Hlen Hnames Hhash Hnd.
  assert (Hin : forall c, In c stacked_cols -> In c (columns df)).
  { intros c Hc; rewrite forallb_forall in Hcols; apply str_in_In, Hcols, Hc. }
  assert (Ht : forall r, In r (rows df) ->
                 r "timeindex_start" = VNum t /\ r "timeindex_stop" = VNum e /\
                 r "timeindex_resolution" = VNum f).
  { intros r Hr; rewrite forallb_forall in Htime; specialize (Htime r Hr).
    apply andb_prop in Htime as [H12 H3]; apply andb_prop in H12 as [H1 H2].
    repeat split; apply py_eq_vnum; assumption. }
  assert (Hs : forall r, In r (rows df) ->
                 r "series" = VSeries (series_of r) /\ length (series_of r) = length idx /\
                 forallb num_exact (series_of r) = true).
  { intros r Hr; rewrite forallb_forall in Hlen; specialize (Hlen r Hr); unfold series_of.
    destruct (r "series"); try discriminate; apply andb_prop in Hlen; destruct Hlen as [H1 H2].
    repeat split; [apply Nat.eqb_eq; exact H1 | exact H2]. }
  assert (HsF : Forall (fun r => r "series" = VSeries (series_of r)) (rows df))
    by (apply Forall_forall; intros r Hr; apply Hs, Hr).
  assert (Hser : map (fun r => r "series") (rows df) = map VSeries (map series_of (rows df))).
  { rewrite map_map; apply map_ext_in; intros r Hr; apply Hs, Hr. }
  assert (Hlens : length names = length (map series_of (rows df))).
  { rewrite <- Hnames, !length_map; reflexivity. }
  destruct (rows df) as [|r0 rs] eqn:Hr; [simpl in Hne; lia|].
  assert (Hok : forall c z, (forall r, In r (r0 :: rs) -> r c = VNum z) -> field_ok df r0 c = true).
  { intros c z Hz; unfold field_ok, field_consistent; rewrite Hr, (Hz r0 (or_introl eq_refl)).
    apply andb_true_intro; split; [|reflexivity].
    apply forallb_forall; intros r Hr'; rewrite (Hz r Hr'); apply Z.eqb_refl. }
  destruct (Ht r0 (or_introl eq_refl)) as (H0s & H0e & H0f).
  unfold unstack_timeseries.
  rewrite (check_ok df r0 rs "timeindex_resolution" Hr (Hin "timeindex_resolution" ltac:(simpl; tauto))
             (Hok _ f (fun r H => proj2 (proj2 (Ht r H))))); cbn [bind].
  rewrite (check_ok df r0 rs "timeindex_start" Hr (Hin "timeindex_start" ltac:(simpl; tauto))
             (Hok _ t (fun r H => proj1 (Ht r H)))); cbn [bind].
  rewrite (check_ok df r0 rs "timeindex_stop" Hr (Hin "timeindex_stop" ltac:(simpl; tauto))
             (Hok _ e (fun r H => proj1 (proj2 (Ht r H))))); cbn [bind].
  rewrite (column_present df "series" (proj2 (str_in_In _ _) (Hin "series" ltac:(simpl; tauto)))); cbn [bind].
  rewrite Hr, Hser.
  change (map series_of (r0 :: rs)) with (series_of r0 :: map series_of rs).
  rewrite np_array_lists; cbn [bind].
  2: { apply Forall_forall; intros xs Hxs; apply in_map_iff in Hxs; destruct Hxs as (r & <- & Hr').
       rewrite (proj1 (proj2 (Hs r (or_intror Hr')))), (proj1 (proj2 (Hs r0 (or_introl eq_refl)))).
       reflexivity. }
  2: { apply Forall_forall; intros xs Hxs.
       change (series_of r0 :: map series_of rs) with (map series_of (r0 :: rs)) in Hxs.
       apply in_map_iff in Hxs; destruct Hxs as (r & <- & Hr'); apply (Hs r Hr'). }
  rewrite (column_present df "var_name" (proj2 (str_in_In _ _) (Hin "var_name" ltac:(simpl; tauto)))); cbn [bind].
  rewrite Hr, Hnames, (mapM_as_label names Hhash); cbn [bind].
  rewrite H0s, H0e, H0f; cbn [as_num bind]; rewrite Hdr; cbn [bind].
  replace (forallb (fun xs => Nat.eqb (length xs) (length idx)) (series_of r0 :: map series_of rs))
    with true.
  2: { symmetry; change (series_of r0 :: map series_of rs) with (map series_of (r0 :: rs)).
       rewrite forallb_map_comm; apply forallb_forall; intros r Hr'.
       apply Nat.eqb_eq, (Hs r Hr'). }
  destruct (date_range_shape t e f idx Hdr) as [m Hidx']; [intros ->; simpl in Hidx; lia|].
  subst idx.
  assert (Hm : (2 <= m)%nat) by (rewrite arange_length in Hidx; lia).
  destruct (stack_arange_set t f m f (combine names (series_of r0 :: map series_of rs)) Hf Hm)
    as (out & Est & Ev).
  - rewrite map_fst_combine; [exact Hnd | exact Hlens].
  - exists (mk_wide (DatetimeIndex (arange t f (S m)) (Some f))
                    (combine names (series_of r0 :: map series_of rs))), out.
    split; [reflexivity | split; [exact Est|]].
    rewrite (pairs_combine (r0 :: rs) names Hnames HsF).
    transitivity (map (fun v : value * value * value * value * value =>
                         let '(a, _, _, _, s) := v in (a, s)) (map stack_view (rows out)));
      [rewrite map_map; reflexivity|].
    rewrite Ev, map_map; reflexivity.
Qed.

Lemma stack_unstack_roundtrip_witness :
  exists w out, unstack_timeseries sample_stacked = Ok w /\ stack_timeseries w = Ok out /\
    map (fun r => (r "var_name", r "series")) (rows out) =
      map (fun r => (r "var_name", r "series")) (rows sample_stacked).
Proof.
  apply (stack_unstack_roundtrip sample_stacked 0 20 10 [0; 10; 20]
           [VStr "BB-electricity-demand"; VStr "BE-electricity-demand"]).
  - simpl; lia.
  - vm_compute; reflexivity.
  - vm_compute; reflexivity.
  - lia.
  - vm_compute; reflexivity.
  - simpl; lia.
  - vm_compute; reflexivity.
  - reflexivity.
  - vm_compute; reflexivity.
  - repeat constructor; simpl; intuition discriminate.
Defined.

(** C1, counterexample.  A stacked table with consistent time fields over
    two dates unstacks, but stacking the result fails: pandas needs three
    dates to infer a frequency.  And a series holding 2^53 + 1 beside a
    series holding NaN goes through a float64 array: the round trip gives
    2^53 back. *)
Lemma stack_unstack_two_dates_fails :
  match unstack_timeseries two_step_stacked with
  | Ok w => stack_timeseries w = Err TooFewDates
  | Err _ => False
  end /\
  match unstack_timeseries float_coerced_stacked with
  | Ok w =>
      match stack_timeseries w with
      | Ok out => map (fun r => (r "var_name", r "series")) (rows out) =
                    [(VStr "a", VSeries [Num (2 ^ 53); Num 1; Num 2]);
                     (VStr "b", VSeries [NaN; Num 3; Num 4])]
      | Err _ => False
      end
  | Err _ => False
  end.
Proof. split; vm_compute; reflexivity. Qed.

(** * Further functions of the module *)

(** ** load_scalars, once the csv file is read (lines 101-142) *)

(** What [load_scalars] ends with: the KeyError naming the missing required
    columns, another error, or the completed table. *)
Inductive load_result :=
| LoadMissing (missing : list string)
| LoadErr (e : error)
| Loaded (df : frame).

(** [for optional in optional_header: if optional not in df_header: ...],
    where [df_header] is the header as read: the first optional column
    ([optional is optional_header[0]]) gets the numbering
    [np.arange(0, len(df))], the others NaN. *)
Definition add_optional_scalars (optional_header : list string) (df : frame) : frame :=
  let df_header := columns df in
  fold_left (fun df optional =>
               if str_in optional df_header then df
               else if String.eqb optional (hd "" optional_header)
                    then add_column df optional (id_values df)
                    else add_nan_column df optional)
            optional_header df.

(** [missing_required = list(set(required_header).difference(set(df_header)))]
    (a set: its order is not fixed, only its elements are), the KeyError
    when it is not empty, the optional columns and [df[header]]. *)
Definition complete_scalars (df : frame) : load_result :=
  match get_optional_required_header "scalars" with
  | Err e => LoadErr e
  | Ok hs =>
      match filter (fun c => negb (str_in c (columns df))) (required_header hs) with
      | (_ :: _) as missing => LoadMissing missing
      | [] =>
          match select_columns (add_optional_scalars (optional_header hs) df) (header hs) with
          | Ok f => Loaded f
          | Err e => LoadErr e
          end
      end
  end.

(** A scalar table as read from a csv file: the required columns only, in
    another order, plus a column of its own. *)
Definition read_scalars : frame :=
  mk_frame ["region"; "scenario"; "name"; "var_name"; "carrier"; "tech"; "type"; "var_value"; "extra"]
    [row_of [("region", VStr "BE"); ("scenario", VStr "base"); ("name", VStr "pv");
             ("var_name", VStr "capacity"); ("carrier", VStr "solar"); ("tech", VStr "pv");
             ("type", VStr "volatile"); ("var_value", VNum 10); ("extra", VStr "x")];
     row_of [("region", VStr "BB"); ("scenario", VStr "base"); ("name", VStr "wind");
             ("var_name", VStr "capacity"); ("carrier", VStr "wind"); ("tech", VStr "onshore");
             ("type", VStr "volatile"); ("var_value", VNum 20); ("extra", VStr "y")]].

(** The same table without its var_value column. *)
Definition read_scalars_no_value : frame :=
  mk_frame (remove_first "var_value" (columns read_scalars)) (rows read_scalars).

Lemma str_in_app_one c l o : str_in c (l ++ [o]) = str_in c l || String.eqb c o.
Proof. unfold str_in; rewrite existsb_app; simpl; rewrite orb_false_r; reflexivity. Qed.

Lemma select_columns_columns df h out : select_columns df h = Ok out -> columns out = h.
Proof. unfold select_columns; destruct (filter _ h); [intros [= <-]; reflexivity | discriminate]. Qed.

Lemma select_columns_present df h :
  forallb (fun c => str_in c (columns df)) h = true -> select_columns df h = Ok (mk_frame h (rows df)).
Proof.
  intros H; unfold select_columns.
  replace (filter (fun c => negb (str_in c (columns df))) h) with (@nil string); [reflexivity|].
  symmetry; rewrite forallb_forall in H.
  induction h as [|c h IH]; simpl; [reflexivity|].
  rewrite (H c (or_introl eq_refl)); simpl; apply IH; intros x Hx; apply H; right; exact Hx.
Qed.

Section OptionalColumns.
Variables (first : string) (df_header : list string).

  (** The values a missing optional column [o] is filled with. *)
Definition fill_value (n : nat) (o : string) : list value :=
    if String.eqb o first then map (fun i => VNum (Z.of_nat i)) (seq 0 n) else repeat VNaN n.

Definition optional_step (df : frame) (optional : string) : frame :=
    if str_in optional df_header then df
    else if String.eqb optional first then add_column df optional (id_values df)
    else add_nan_column df optional.

Lemma optional_step_spec df o :
    length (rows (optional_step df o)) = length (rows df) /\
    (forall c, str_in c (columns (optional_step df o)) =
                 str_in c (columns df) || (String.eqb c o && negb (str_in o df_header))) /\
    (forall c, map (fun r => r c) (rows (optional_step df o)) =
       if String.eqb c o && negb (str_in o df_header) then fill_value (length (rows df)) o
       else map (fun r => r c) (rows df)).
  Proof.
    assert (Hid : length (id_values df) = length (rows df))
      by (unfold id_values; rewrite length_map, length_seq; reflexivity).
    unfold optional_step; destruct (str_in o df_header) eqn:Ho; cbn [negb].
    - split; [reflexivity|split]; intros c; rewrite andb_false_r; [rewrite orb_false_r|]; reflexivity.
    - set (v := if String.eqb o first then id_values df else repeat VNaN (length (rows df))).
      assert (Hv : length v = length (rows df))
        by (unfold v; destruct (String.eqb o first); [exact Hid | apply repeat_length]).
      replace (if String.eqb o first then add_column df o (id_values df) else add_nan_column df o)
        with (add_column df o v) by (unfold v, add_nan_column; destruct (String.eqb o first); reflexivity).
      split; [apply add_column_length, Hv|split].
      + intros c; rewrite andb_true_r; simpl; apply str_in_app_one.
      + intros c; rewrite andb_true_r; destruct (String.eqb_spec c o) as [->|Hne].
        * rewrite add_column_new by exact Hv.
          unfold v, fill_value, id_values; destruct (String.eqb o first); reflexivity.
        * rewrite add_column_other by assumption; reflexivity.
  Qed.

Lemma optional_fold_spec opts df :
    let df' := fold_left optional_step opts df in
    length (rows df') = length (rows df) /\
    (forall c, str_in c (columns df') =
                 str_in c (columns df) || (str_in c opts && negb (str_in c df_header))) /\
    (forall c, map (fun r => r c) (rows df') =
       if str_in c opts && negb (str_in c df_header) then fill_value (length (rows df)) c
       else map (fun r => r c) (rows df)).
  Proof.
    revert df; induction opts as [|o opts IH]; intros df; simpl.
    - split; [reflexivity|split]; intros c; [rewrite orb_false_r|]; reflexivity.
    - destruct (optional_step_spec df o) as (L1 & C1 & M1).
      destruct (IH (optional_step df o)) as (L2 & C2 & M2).
      split; [congruence|split].
      + intros c; replace (str_in c (o :: opts)) with (String.eqb c o || str_in c opts) by reflexivity.
        rewrite C2, C1; destruct (String.eqb_spec c o) as [->|_]; cbn [orb andb];
          [destruct (str_in o (columns df)), (str_in o df_header), (str_in o opts)
          | destruct (str_in c (columns df)), (str_in c opts), (str_in c df_header)]; reflexivity.
      + intros c; replace (str_in c (o :: opts)) with (String.eqb c o || str_in c opts) by reflexivity.
        rewrite M2, M1, L1; destruct (String.eqb_spec c o) as [->|_]; cbn [orb andb];
          [destruct (str_in o df_header), (str_in o opts)
          | destruct (str_in c opts), (str_in c df_header)]; reflexivity.
  Qed.
End OptionalColumns.

Lemma add_optional_scalars_fold opts df :
  add_optional_scalars opts df = fold_left (optional_step (hd "" opts) (columns df)) opts df.
Proof. reflexivity. Qed.

Lemma header_sc_split c : In c header_sc -> In c required_sc \/ In c optional_sc.
Proof. unfold header_sc, scalar_columns, required_sc, optional_sc; simpl; intuition. Qed.

Lemma optional_sc_header c : In c optional_sc -> In c header_sc.
Proof. unfold header_sc, scalar_columns, optional_sc; simpl; intuition. Qed.

Lemma complete_scalars_eq df :
  complete_scalars df =
  match filter (fun c => negb (str_in c (columns df))) required_sc with
  | (_ :: _) as missing => LoadMissing missing
  | [] => match select_columns (fold_left (optional_step "id_scal" (columns df)) optional_sc df) header_sc with
          | Ok f => Loaded f
          | Err e => LoadErr e
          end
  end.
Proof. unfold complete_scalars; rewrite headers_scalars; reflexivity. Qed.

Fixpoint nodupb (l : list string) : bool :=
  match l with [] => true | x :: l => negb (str_in x l) && nodupb l end.

Lemma nodupb_NoDup l : nodupb l = true -> NoDup l.
Proof.
  induction l as [|x l IH]; simpl; [constructor|].
  intros H; apply andb_true_iff in H as [H1 H2]; constructor; [|auto].
  rewrite <- str_in_In; destruct (str_in x l); simpl in *; congruence.
Qed.

(** The frame [load_scalars] returns for [read_scalars]. *)
Definition read_scalars_loaded : frame :=
  match complete_scalars read_scalars with Loaded f => f | _ => read_scalars end.

(** X1.  [get_optional_required_header] accepts exactly "scalars" and
    "timeseries"; for them the header has no repeated column, the optional
    columns are columns of the header, and the required columns are the
    header without the optional ones, in header order.  Any other kind is
    refused with the kind named. *)
Theorem get_optional_required_header_spec (d : string) :
  match get_optional_required_header d with
  | Ok hs =>
      (d = "scalars" \/ d = "timeseries") /\ NoDup (header hs) /\
      incl (optional_header hs) (header hs) /\
      required_header hs = filter (fun c => negb (str_in c (optional_header hs))) (header hs)
  | Err e => e = InvalidSchemaKind d /\ d <> "scalars" /\ d <> "timeseries"
  end.
Proof.
  unfold get_optional_required_header.
  destruct (String.eqb_spec d "scalars") as [->|Hs];
    [|destruct (String.eqb_spec d "timeseries") as [->|Ht]].
  1,2: cbn -[str_in]; split; [tauto|split; [|split; [|reflexivity]]];
       [ apply nodupb_NoDup; reflexivity
       | intros x Hx; simpl in Hx |- *; intuition ].
  cbn; split; [reflexivity|split; assumption].
Qed.

(** X2.  When a required scalar column is absent from the file,
    [load_scalars] stops with the KeyError whose list holds exactly the
    required columns missing from the file. *)
Theorem load_scalars_missing_required (df : frame) :
  existsb (fun c => negb (str_in c (columns df))) required_sc = true ->
  exists missing, complete_scalars df = LoadMissing missing /\
    (forall c, In c missing <-> In c required_sc /\ ~ In c (columns df)).
Proof.
  intros Hex; rewrite complete_scalars_eq.
  assert (Hm : forall c, In c (filter (fun c => negb (str_in c (columns df))) required_sc) <->
                         In c required_sc /\ ~ In c (columns df)).
  { intros c; rewrite filter_In; pose proof (str_in_In c (columns df)) as Hi.
    destruct (str_in c (columns df)); simpl; intuition discriminate. }
  destruct (filter _ required_sc) as [|m ms] eqn:E.
  - apply existsb_exists in Hex; destruct Hex as (c & Hc & Hn).
    exfalso; apply (Hm c); split; [exact Hc|]; rewrite <- str_in_In.
    destruct (str_in c (columns df)); simpl in *; congruence.
  - exists (m :: ms); split; [reflexivity | exact Hm].
Qed.

Lemma load_scalars_missing_required_witness :
  existsb (fun c => negb (str_in c (columns read_scalars_no_value))) required_sc = true /\
  exists missing, complete_scalars read_scalars_no_value = LoadMissing missing /\
    (forall c, In c missing <-> In c required_sc /\ ~ In c (columns read_scalars_no_value)).
Proof.
  split; [vm_compute; reflexivity|].
  apply (load_scalars_missing_required read_scalars_no_value); vm_compute; reflexivity.
Defined.

(** X3.  When every required scalar column is present, [load_scalars]
    returns a table with exactly the scalar header as columns, in header
    order, and the same number of rows; a header column of the file keeps its
    cells, a missing id_scal is numbered 0, 1, ..., and any other missing
    optional column is NaN.  Columns outside the header are dropped. *)
Theorem load_scalars_completes (df : frame) :
  forallb (fun c => str_in c (columns df)) required_sc = true ->
  exists out, complete_scalars df = Loaded out /\
    columns out = header_sc /\ length (rows out) = length (rows df) /\
    forall c, In c header_sc ->
      map (fun r => r c) (rows out) =
        if str_in c (columns df) then map (fun r => r c) (rows df)
        else if String.eqb c "id_scal" then id_values df
        else repeat VNaN (length (rows df)).
Proof.
  intros Hreq; rewrite complete_scalars_eq.
  replace (filter (fun c => negb (str_in c (columns df))) required_sc) with (@nil string).
  2: { symmetry; rewrite forallb_forall in Hreq; clear -Hreq.
       induction required_sc as [|c l IH]; simpl; [reflexivity|].
       rewrite (Hreq c (or_introl eq_refl)); simpl; apply IH; intros x Hx; apply Hreq; right; exact Hx. }
  destruct (optional_fold_spec "id_scal" (columns df) optional_sc df) as (L & C & M).
  set (df' := fold_left (optional_step "id_scal" (columns df)) optional_sc df) in *.
  rewrite select_columns_present.
  2: { apply forallb_forall; intros c Hc; rewrite C.
       destruct (header_sc_split c Hc) as [H|H];
         [rewrite forallb_forall in Hreq; rewrite (Hreq c H); reflexivity
         | apply str_in_In in H; rewrite H; destruct (str_in c (columns df)); reflexivity]. }
  eexists; split; [reflexivity|split; [reflexivity|split; [exact L|]]].
  intros c Hc; cbn [rows]; rewrite M.
  destruct (str_in c (columns df)) eqn:Ec; cbn [negb]; [rewrite andb_false_r; reflexivity|].
  destruct (header_sc_split c Hc) as [H|H].
  - rewrite forallb_forall in Hreq; rewrite (Hreq c H) in Ec; discriminate.
  - apply str_in_In in H; rewrite H; reflexivity.
Qed.

Lemma load_scalars_completes_witness :
  forallb (fun c => str_in c (columns read_scalars)) required_sc = true /\
  exists out, complete_scalars read_scalars = Loaded out /\
    columns out = header_sc /\ length (rows out) = length (rows read_scalars) /\
    forall c, In c header_sc ->
      map (fun r => r c) (rows out) =
        if str_in c (columns read_scalars) then map (fun r => r c) (rows read_scalars)
        else if String.eqb c "id_scal" then id_values read_scalars
        else repeat VNaN (length (rows read_scalars)).
Proof.
  split; [vm_compute; reflexivity|].
  apply (load_scalars_completes read_scalars); vm_compute; reflexivity.
Defined.

(** X4.  A table returned by [load_scalars] is recognised as a scalar table,
    and filtering it by any of the scalar filter keys never fails. *)
Theorem load_scalars_filterable (df out : frame) :
  complete_scalars df = Loaded out ->
  classify out = Ok Scalars /\
  forall key values, In key (filter_options Scalars) ->
    exists res, df_filtered out key values = Ok res.
Proof.
  rewrite complete_scalars_eq; intros H.
  assert (Hc : columns out = header_sc).
  { destruct (filter _ required_sc); [|discriminate].
    destruct (select_columns _ header_sc) eqn:E; [|discriminate].
    injection H as <-; exact (select_columns_columns _ _ _ E). }
  assert (Hcl : classify out = Ok Scalars) by (rewrite classify_eq, Hc; reflexivity).
  split; [exact Hcl|].
  intros key values Hk; unfold df_filtered; rewrite Hcl; cbn [bind].
  assert (Hk' : str_in key (filter_options Scalars) = true) by (apply str_in_In; exact Hk).
  assert (Hkc : str_in key (columns out) = true).
  { rewrite Hc; apply str_in_In; unfold header_sc, scalar_columns; simpl in Hk |- *; intuition. }
  rewrite Hk', Hkc; cbn [negb]; rewrite column_present by exact Hkc; cbn [bind].
  destruct (fold_left _ values _); eexists; reflexivity.
Qed.

Lemma load_scalars_filterable_witness :
  complete_scalars read_scalars = Loaded read_scalars_loaded /\ classify read_scalars_loaded = Ok Scalars.
Proof.
  split; [reflexivity|].
  apply (load_scalars_filterable read_scalars read_scalars_loaded); reflexivity.
Defined.

(** ** load_timeseries, completion of the read table (lines 252-296) *)

Lemma bind_select_columns (m : result frame) h out :
  bind m (fun d => select_columns d h) = Ok out -> columns out = h.
Proof. destruct m; simpl; [apply select_columns_columns | discriminate]. Qed.

Lemma complete_timeseries_columns df out : complete_timeseries df = Ok out -> columns out = header_ts.
Proof. unfold complete_timeseries; rewrite headers_timeseries; cbn [bind]; apply bind_select_columns. Qed.

(** Filtering never fails on a recognised table that has all the filter
    keys of its schema as columns. *)
Lemma df_filtered_total df sh key values :
  classify df = Ok sh -> (forall k, In k (filter_options sh) -> In k (columns df)) ->
  In key (filter_options sh) -> exists res, df_filtered df key values = Ok res.
Proof.
  intros Hcl Hall Hk; unfold df_filtered; rewrite Hcl; cbn [bind].
  assert (Hk' : str_in key (filter_options sh) = true) by (apply str_in_In; exact Hk).
  assert (Hkc : str_in key (columns df) = true) by (apply str_in_In, Hall, Hk).
  rewrite Hk', Hkc; cbn [negb]; rewrite column_present by exact Hkc; cbn [bind].
  destruct (fold_left _ values _); eexists; reflexivity.
Qed.

Lemma complete_required_eq df :
  columns df = required_ts ->
  complete_timeseries df =
    Ok (mk_frame header_ts
          (rows (add_nan_column (add_nan_column (add_nan_column
                   (add_column df "id_ts" (id_values df)) "var_unit") "source") "comment"))).
Proof. destruct df as [cols rs]; simpl; intros ->; reflexivity. Qed.

Lemma complete_select_eq df :
  columns df <> required_ts -> columns df <> remove_first "region" required_ts ->
  complete_timeseries df = select_columns df header_ts.
Proof.
  intros H1 H2; unfold complete_timeseries; rewrite headers_timeseries; cbn [bind required_header].
  replace (list_eqb (columns df) required_ts) with false
    by (symmetry; destruct (list_eqb _ _) eqn:E; [apply list_eqb_true in E; congruence | reflexivity]).
  replace (list_eqb (columns df) (remove_first "region" required_ts)) with false
    by (symmetry; destruct (list_eqb _ _) eqn:E; [apply list_eqb_true in E; congruence | reflexivity]).
  reflexivity.
Qed.

(** A table whose columns are the full time-series header in another order. *)
Definition reordered_ts : frame :=
  mk_frame (rev header_ts) (rows regional_ts).

(** X5.  A table returned by [load_timeseries] has exactly the time-series
    header as columns, is recognised as a time-series table, and filtering
    it by region or var_name never fails. *)
Theorem load_timeseries_filterable (df out : frame) :
  complete_timeseries df = Ok out ->
  columns out = header_ts /\ classify out = Ok TimeSeries /\
  forall key values, In key (filter_options TimeSeries) ->
    exists res, df_filtered out key values = Ok res.
Proof.
  intros H; pose proof (complete_timeseries_columns df out H) as Hc.
  assert (Hcl : classify out = Ok TimeSeries) by (rewrite classify_eq, Hc; reflexivity).
  split; [exact Hc|split; [exact Hcl|]].
  intros key values Hk; apply (df_filtered_total out TimeSeries key values Hcl); [|exact Hk].
  intros k Hk2; rewrite Hc; simpl in Hk2 |- *; intuition.
Qed.

Lemma load_timeseries_filterable_witness :
  complete_timeseries sample_regions = Ok (mk_frame header_ts
    (rows (add_nan_column (add_nan_column (add_nan_column
       (add_column (add_column sample_regions "id_ts" (id_values sample_regions)) "region"
          [VStr "BB"; VStr "BE_BB"; VStr "BE"]) "var_unit") "source") "comment"))) /\
  classify (mk_frame header_ts
    (rows (add_nan_column (add_nan_column (add_nan_column
       (add_column (add_column sample_regions "id_ts" (id_values sample_regions)) "region"
          [VStr "BB"; VStr "BE_BB"; VStr "BE"]) "var_unit") "source") "comment"))) = Ok TimeSeries.
Proof.
  split; [reflexivity|].
  apply (load_timeseries_filterable sample_regions); reflexivity.
Defined.

(** X6.  A table whose columns are the required time-series columns, in
    header order, with region, is completed to the full header: the
    required columns keep their cells, id_ts is numbered 0, 1, ..., and
    var_unit, source and comment are NaN. *)
Theorem load_timeseries_required_only (df : frame) :
  columns df = required_ts ->
  exists out, complete_timeseries df = Ok out /\
    columns out = header_ts /\ length (rows out) = length (rows df) /\
    (forall c, In c required_ts -> map (fun r => r c) (rows out) = map (fun r => r c) (rows df)) /\
    map (fun r => r "id_ts") (rows out) = id_values df /\
    (forall c, In c ["var_unit"; "source"; "comment"] ->
       map (fun r => r c) (rows out) = repeat VNaN (length (rows df))).
Proof.
  intros Hc; rewrite (complete_required_eq df Hc).
  assert (Hid : length (id_values df) = length (rows df))
    by (unfold id_values; rewrite length_map, length_seq; reflexivity).
  assert (L1 := add_column_length df "id_ts" _ Hid).
  set (df1 := add_column df "id_ts" (id_values df)) in *.
  assert (Ln : forall d c, length (rows (add_nan_column d c)) = length (rows d))
    by (intros d c; apply add_column_length, repeat_length).
  eexists; split; [reflexivity|split; [reflexivity|split]].
  { cbn [rows]; rewrite !Ln; exact L1. }
  split; [|split].
  - intros c Hin; cbn [rows].
    assert (Hne : ~ In c ("id_ts" :: ["var_unit"; "source"; "comment"]))
      by (unfold required_ts in Hin; simpl in Hin |- *; intuition congruence).
    simpl in Hne.
    rewrite !add_nan_column_other by (intros ->; tauto).
    apply add_column_other; [intros ->; tauto | exact Hid].
  - cbn [rows]; rewrite !add_nan_column_other by discriminate; apply add_column_new, Hid.
  - intros c Hin; cbn [rows]; simpl in Hin.
    destruct Hin as [<-|[<-|[<-|[]]]].
    + rewrite !add_nan_column_other by discriminate; unfold add_nan_column.
      rewrite add_column_new by apply repeat_length; rewrite L1; reflexivity.
    + rewrite !add_nan_column_other by discriminate; unfold add_nan_column at 1.
      rewrite add_column_new by apply repeat_length; rewrite Ln, L1; reflexivity.
    + unfold add_nan_column at 1.
      rewrite add_column_new by apply repeat_length; rewrite !Ln, L1; reflexivity.
Qed.

Lemma load_timeseries_required_only_witness :
  columns regional_ts = required_ts /\
  exists out, complete_timeseries regional_ts = Ok out /\
    columns out = header_ts /\ length (rows out) = length (rows regional_ts) /\
    (forall c, In c required_ts -> map (fun r => r c) (rows out) = map (fun r => r c) (rows regional_ts)) /\
    map (fun r => r "id_ts") (rows out) = id_values regional_ts /\
    (forall c, In c ["var_unit"; "source"; "comment"] ->
       map (fun r => r c) (rows out) = repeat VNaN (length (rows regional_ts))).
Proof.
  split; [reflexivity|].
  apply (load_timeseries_required_only regional_ts); reflexivity.
Defined.

(** X7.  A table whose columns are neither the required time-series columns
    nor those without region is not completed: [load_timeseries] only
    selects the header columns in header order, keeping the rows, and fails
    with a KeyError on a header column the table lacks. *)
Theorem load_timeseries_select_only (df : frame) :
  columns df <> required_ts -> columns df <> remove_first "region" required_ts ->
  (forallb (fun c => str_in c (columns df)) header_ts = true ->
     complete_timeseries df = Ok (mk_frame header_ts (rows df))) /\
  (existsb (fun c => negb (str_in c (columns df))) header_ts = true ->
     exists c, complete_timeseries df = Err (KeyErr c) /\ In c header_ts /\ ~ In c (columns df)).
Proof.
  intros H1 H2; rewrite (complete_select_eq df H1 H2); split.
  - apply select_columns_present.
  - intros Hex; unfold select_columns.
    assert (Hm : forall c, In c (filter (fun c => negb (str_in c (columns df))) header_ts) ->
                           In c header_ts /\ ~ In c (columns df)).
    { intros c; rewrite filter_In; pose proof (str_in_In c (columns df)) as Hi.
      destruct (str_in c (columns df)); simpl; intuition discriminate. }
    destruct (filter _ header_ts) as [|c cs] eqn:E.
    + exfalso; apply existsb_exists in Hex; destruct Hex as (c & Hc & Hn).
      assert (Hin : In c (filter (fun c => negb (str_in c (columns df))) header_ts))
        by (apply filter_In; split; assumption).
      rewrite E in Hin; destruct Hin.
    + exists c; split; [reflexivity | apply Hm; left; reflexivity].
Qed.

Lemma load_timeseries_select_only_witness :
  columns reordered_ts <> required_ts /\ columns reordered_ts <> remove_first "region" required_ts /\
  (forallb (fun c => str_in c (columns reordered_ts)) header_ts = true ->
     complete_timeseries reordered_ts = Ok (mk_frame header_ts (rows reordered_ts))) /\
  (existsb (fun c => negb (str_in c (columns reordered_ts))) header_ts = true ->
     exists c, complete_timeseries reordered_ts = Err (KeyErr c) /\ In c header_ts /\
               ~ In c (columns reordered_ts)).
Proof.
  assert (H1 : columns reordered_ts <> required_ts) by discriminate.
  assert (H2 : columns reordered_ts <> remove_first "region" required_ts) by discriminate.
  split; [exact H1|split; [exact H2|]].
  apply (load_timeseries_select_only reordered_ts H1 H2).
Defined.

(** ** df_filtered, further properties (lines 319-406) *)

Lemma num_eq_eq a b : num_eq a b = true -> a = b.
Proof. destruct a, b; simpl; try discriminate; intros H; apply Z.eqb_eq in H; congruence. Qed.

(** Python's [==] on cells holds only between equal cells. *)
Lemma py_eq_eq a b : py_eq a b = true -> a = b.
Proof.
  destruct a as [s|z|xs| |], b as [s'|z'|ys| |]; simpl; try discriminate; try reflexivity.
  - intros H; apply String.eqb_eq in H; congruence.
  - intros H; apply Z.eqb_eq in H; congruence.
  - intros H; apply andb_true_iff in H as [Hl Hf]; f_equal.
    revert ys Hl Hf; induction xs as [|x xs IH]; intros [|y ys]; simpl; try discriminate; [reflexivity|].
    intros Hl Hf; apply andb_true_iff in Hf as [H1 H2].
    rewrite (num_eq_eq _ _ H1), (IH ys Hl H2); reflexivity.
Qed.

(** Values no two of which are equal under Python's [==]. *)
Fixpoint distinct_values (l : list value) : bool :=
  match l with [] => true | v :: l => negb (py_in v l) && distinct_values l end.

Lemma filter_rows_twice (key : string) v w (rs : list row) :
  filter (fun r => py_eq v (r key)) (filter (fun r => py_eq w (r key)) rs) =
  if py_eq v w then filter (fun r => py_eq w (r key)) rs else [].
Proof.
  induction rs as [|r rs IH]; simpl; [destruct (py_eq v w); reflexivity|].
  destruct (py_eq w (r key)) eqn:Ew; [|exact IH].
  apply py_eq_eq in Ew; cbn [filter]; rewrite <- Ew, IH.
  destruct (py_eq v w); reflexivity.
Qed.

Lemma filter_rows_for df key v ws :
  filter (fun r => py_eq v (r key)) (rows_for df key ws) =
  flat_map (fun w => filter (fun r => py_eq w (r key)) (rows df)) (filter (py_eq v) ws).
Proof.
  unfold rows_for; induction ws as [|w ws IH]; simpl; [reflexivity|].
  rewrite filter_app, filter_rows_twice, IH; destruct (py_eq v w); reflexivity.
Qed.

Lemma filter_none {A} (p : A -> bool) l : (forall x, In x l -> p x = false) -> filter p l = [].
Proof.
  induction l as [|x l IH]; simpl; intros H; [reflexivity|].
  rewrite (H x (or_introl eq_refl)); apply IH; intros y Hy; apply H; right; exact Hy.
Qed.

Lemma py_in_false v l : py_in v l = false -> forall w, In w l -> py_eq v w = false.
Proof.
  unfold py_in; intros H w Hw; destruct (py_eq v w) eqn:E; [|reflexivity].
  rewrite <- H; symmetry; apply existsb_exists; exists w; split; assumption.
Qed.

Lemma distinct_filter v vals :
  distinct_values vals = true -> In v vals ->
  filter (py_eq v) vals = if py_eq v v then [v] else [].
Proof.
  induction vals as [|v0 vs IH]; simpl; [tauto|].
  intros Hd Hin; apply andb_true_iff in Hd as [Hn Hd]; apply negb_true_iff in Hn.
  destruct (py_eq v v0) eqn:E.
  - assert (v0 = v) by (symmetry; apply py_eq_eq, E); subst v0.
    rewrite E, (filter_none _ vs (py_in_false v vs Hn)); reflexivity.
  - destruct Hin as [->|Hin]; [|exact (IH Hd Hin)].
    rewrite E, (filter_none _ vs); [reflexivity|].
    intros w Hw; destruct (py_eq v w) eqn:Ew; [|reflexivity].
    pose proof (py_eq_eq _ _ Ew); subst w; congruence.
Qed.

Lemma df_filtered_eq (df : frame) (sh : shape) (key : string) (vals : list value) :
  classify df = Ok sh -> str_in key (filter_options sh) = true -> str_in key (columns df) = true ->
  df_filtered df key vals =
    Ok (mk_frame (columns df) (rows_for df key vals),
        map (fun v => NotFound v key)
            (filter (fun v => negb (py_in v (map (fun r => r key) (rows df)))) vals)).
Proof.
  intros Hc Hk Hcol; unfold df_filtered; rewrite Hc; simpl; rewrite Hk, Hcol; simpl.
  rewrite (column_present df key Hcol); simpl; rewrite fold_filter_step; reflexivity.
Qed.

Lemma df_filtered_ok_inv (df : frame) (key : string) (vals : list value) res :
  df_filtered df key vals = Ok res ->
  exists sh, classify df = Ok sh /\ str_in key (filter_options sh) = true /\
    str_in key (columns df) = true /\
    res = (mk_frame (columns df) (rows_for df key vals),
           map (fun v => NotFound v key)
               (filter (fun v => negb (py_in v (map (fun r => r key) (rows df)))) vals)).
Proof.
  destruct (classify df) as [sh|e] eqn:Hc; [|unfold df_filtered; rewrite Hc; discriminate].
  destruct (str_in key (filter_options sh)) eqn:Hk; [|unfold df_filtered; rewrite Hc; simpl; rewrite Hk; discriminate].
  destruct (str_in key (columns df)) eqn:Hcol;
    [|unfold df_filtered; rewrite Hc; simpl; rewrite Hk, Hcol; discriminate].
  rewrite (df_filtered_eq df sh key vals Hc Hk Hcol); intros [= <-]; exists sh; auto.
Qed.

Lemma py_in_column v key (rs : list row) :
  py_in v (map (fun r => r key) rs) =
  match filter (fun r => py_eq v (r key)) rs with [] => false | _ => true end.
Proof.
  unfold py_in; induction rs as [|r rs IH]; simpl; [reflexivity|].
  destruct (py_eq v (r key)); [reflexivity | exact IH].
Qed.

Lemma filter_rows_for_distinct df key v vals :
  distinct_values vals = true -> In v vals ->
  filter (fun r => py_eq v (r key)) (rows_for df key vals) = filter (fun r => py_eq v (r key)) (rows df).
Proof.
  intros Hd Hin; rewrite filter_rows_for, (distinct_filter v vals Hd Hin).
  destruct (py_eq v v) eqn:Ev; simpl; [apply app_nil_r|].
  symmetry; apply filter_none; intros r _.
  destruct (py_eq v (r key)) eqn:E; [|reflexivity].
  pose proof (py_eq_eq _ _ E) as He; rewrite <- He in E; congruence.
Qed.

Lemma rows_for_twice df cols key vals :
  distinct_values vals = true ->
  rows_for (mk_frame cols (rows_for df key vals)) key vals = rows_for df key vals.
Proof.
  intros Hd; unfold rows_for at 1 3; cbn [rows]; rewrite !flat_map_concat_map; f_equal.
  apply map_ext_in; intros v Hv; apply filter_rows_for_distinct; assumption.
Qed.

(** The result of filtering [sample_scalars] by region BB, then BE. *)
Definition filtered_sample : frame * list notice :=
  match df_filtered sample_scalars "region" [VStr "BB"; VStr "BE"] with
  | Ok p => p
  | Err _ => (sample_scalars, [])
  end.

(** X8.  Filtering is idempotent for values no two of which are equal and
    none of which is or holds NaN (Python's [in] tests identity first, which
    the model of [in] leaves out): filtering a filtered table again by the
    same key and values gives the same table and the same notices. *)
Theorem df_filtered_idempotent (df : frame) (key : string) (vals : list value)
    (out : frame) (notes : list notice) :
  distinct_values vals = true -> forallb nan_free vals = true ->
  df_filtered df key vals = Ok (out, notes) ->
  df_filtered out key vals = Ok (out, notes).
Proof.
  intros Hd _ H; destruct (df_filtered_ok_inv df key vals _ H) as (sh & Hc & Hk & Hcol & E).
  injection E as -> ->.
  rewrite (df_filtered_eq _ sh key vals); cbn [columns rows].
  - rewrite rows_for_twice by exact Hd; do 3 f_equal.
    apply filter_ext_in; intros v Hv; rewrite !py_in_column, filter_rows_for_distinct by assumption.
    reflexivity.
  - rewrite classify_eq in Hc |- *; exact Hc.
  - exact Hk.
  - exact Hcol.
Qed.

Lemma df_filtered_idempotent_witness :
  distinct_values [VStr "BB"; VStr "BE"] = true /\ forallb nan_free [VStr "BB"; VStr "BE"] = true /\
  df_filtered sample_scalars "region" [VStr "BB"; VStr "BE"] =
    Ok (fst filtered_sample, snd filtered_sample) /\
  df_filtered (fst filtered_sample) "region" [VStr "BB"; VStr "BE"] =
    Ok (fst filtered_sample, snd filtered_sample).
Proof.
  assert (Hd : distinct_values [VStr "BB"; VStr "BE"] = true) by reflexivity.
  assert (Hn : forallb nan_free [VStr "BB"; VStr "BE"] = true) by reflexivity.
  assert (H : df_filtered sample_scalars "region" [VStr "BB"; VStr "BE"] =
                Ok (fst filtered_sample, snd filtered_sample)) by reflexivity.
  split; [exact Hd|split; [exact Hn|split; [exact H|]]].
  exact (df_filtered_idempotent sample_scalars "region" _ _ _ Hd Hn H).
Defined.

(** X9.  What df_filtered can fail with: the table is not recognised, or the
    key is not a filter key of its schema.  The missing-column check never
    fails, as the filter keys are required columns of their schema. *)
Theorem df_filtered_errors (df : frame) (key : string) (vals : list value) (e : error) :
  df_filtered df key vals = Err e ->
  classify df = Err e \/
  exists sh, classify df = Ok sh /\ ~ In key (filter_options sh) /\
             e = InvalidFilterKey key (filter_options sh).
Proof.
  destruct (classify df) as [sh|e'] eqn:Hc.
  2: { unfold df_filtered; rewrite Hc; intros H; left; simpl in H; congruence. }
  intros H; right; exists sh; split; [reflexivity|].
  destruct (str_in key (filter_options sh)) eqn:Hk.
  - exfalso.
    assert (Hkc : str_in key (columns df) = true).
    { apply str_in_In; apply str_in_In in Hk.
      destruct sh; [apply (classify_scalars_columns df key Hc) | apply (classify_ts_columns df key Hc)];
        simpl in Hk |- *; intuition. }
    rewrite (df_filtered_eq df sh key vals Hc Hk Hkc) in H; discriminate.
  - unfold df_filtered in H; rewrite Hc in H; simpl in H; rewrite Hk in H; simpl in H.
    injection H as <-; split; [|reflexivity].
    rewrite <- str_in_In, Hk; discriminate.
Qed.

Lemma df_filtered_errors_witness :
  df_filtered sample_scalars "name" [] = Err (InvalidFilterKey "name" (filter_options Scalars)) /\
  (classify sample_scalars = Err (InvalidFilterKey "name" (filter_options Scalars)) \/
   exists sh, classify sample_scalars = Ok sh /\ ~ In "name" (filter_options sh) /\
     InvalidFilterKey "name" (filter_options Scalars) = InvalidFilterKey "name" (filter_options sh)).
Proof.
  assert (H : df_filtered sample_scalars "name" [] = Err (InvalidFilterKey "name" (filter_options Scalars)))
    by reflexivity.
  split; [exact H|].
  exact (df_filtered_errors sample_scalars "name" [] _ H).
Defined.

(** A scalar table with no rows. *)
Definition empty_scalars : frame := mk_frame scalar_columns [].

(** X10.  On a recognised table without rows, df_agg by an aggregation key
    of its schema returns a table with the same columns and no rows; by any
    other key it fails with the key and the allowed keys. *)
Theorem df_agg_no_rows (df : frame) (sh : shape) (key : string) :
  classify df = Ok sh -> rows df = [] ->
  df_agg df key =
    if str_in key (agg_options sh) then Ok (mk_frame (columns df) [])
    else Err (InvalidAggregationKey key (agg_options sh)).
Proof.
  intros Hc Hr; unfold df_agg; rewrite Hc; cbn [bind].
  destruct (str_in key (agg_options sh)) eqn:Hk; [|reflexivity]; cbn [negb].
  assert (Hkc : str_in key (columns df) = true).
  { apply str_in_In; apply str_in_In in Hk.
    destruct sh; [apply (classify_scalars_columns df key Hc) | apply (classify_ts_columns df key Hc)];
      simpl in Hk |- *; intuition. }
  rewrite Hkc; cbn [negb]; rewrite (column_present df key Hkc), Hr; cbn [bind map].
  destruct sh; [|reflexivity].
  assert (Hsc : str_in "scenario" (columns df) = true)
    by (apply str_in_In, (classify_scalars_columns df "scenario" Hc); simpl; tauto).
  rewrite (column_present df "scenario" Hsc), Hr; reflexivity.
Qed.

Lemma df_agg_no_rows_witness :
  classify empty_scalars = Ok Scalars /\ rows empty_scalars = [] /\
  df_agg empty_scalars "region" = Ok (mk_frame (columns empty_scalars) []).
Proof.
  assert (Hc : classify empty_scalars = Ok Scalars) by reflexivity.
  assert (Hr : rows empty_scalars = []) by reflexivity.
  split; [exact Hc|split; [exact Hr|]].
  exact (df_agg_no_rows empty_scalars Scalars "region" Hc Hr).
Defined.

(** ** df_agg, the rows built for scalars (lines 656-692) *)

Lemma fold_append_rows (P : row -> Prop) (g : string * value -> list (string * value)) d out :
  (forall kv, In kv d -> P (row_of (g kv))) -> Forall P (rows out) ->
  Forall P (rows (fold_left (fun o kv => append_dict o (g kv)) d out)).
Proof.
  revert out; induction d as [|kv d IH]; simpl; intros out Hd Hout; [exact Hout|].
  apply IH; [intros kv' H; apply Hd; right; exact H|].
  simpl; apply Forall_app; split; [exact Hout|].
  constructor; [apply Hd; left; reflexivity | constructor].
Qed.

Lemma agg_scalar_scenarios_rows (P : row -> Prop) df key scs keys out out' :
  (forall sc ki d kv, In sc scs -> In ki keys ->
     agg_scalar_rows df key sc ki (rows df) [] = Ok d -> In kv d ->
     P (row_of (scalar_new_row key sc ki kv))) ->
  Forall P (rows out) -> agg_scalar_scenarios df key scs keys out = Ok out' -> Forall P (rows out').
Proof.
  revert out; induction scs as [|sc scs IH]; simpl; intros out Hall Hout H.
  - injection H as <-; exact Hout.
  - destruct (agg_scalar_keys df key sc keys out) as [o|e] eqn:E; simpl in H; [|discriminate].
    refine (IH o _ _ H);
      [intros sc' ki' d' kv' Hs Hk' Hd' Hkv'; exact (Hall sc' ki' d' kv' (or_intror Hs) Hk' Hd' Hkv')|].
    clear H IH; revert out Hout E.
    assert (Hk : forall ki, In ki keys -> forall d kv, agg_scalar_rows df key sc ki (rows df) [] = Ok d ->
                 In kv d -> P (row_of (scalar_new_row key sc ki kv)))
      by (intros ki Hki d kv; apply Hall; [left; reflexivity | exact Hki]).
    clear Hall; induction keys as [|ki ks IHk]; simpl; intros out Hout E.
    + injection E as <-; exact Hout.
    + destruct (agg_scalar_rows df key sc ki (rows df) []) as [d|e] eqn:Ed; simpl in E; [|discriminate].
      refine (IHk _ _ _ E); [intros ki' Hki' d' kv' Hd' Hkv'; exact (Hk ki' (or_intror Hki') d' kv' Hd' Hkv')|].
      apply fold_append_rows; [|exact Hout].
      intros kv Hkv; exact (Hk ki (or_introl eq_refl) d kv Ed Hkv).
Qed.

Lemma df_agg_scalars_key df key out :
  classify df = Ok Scalars -> df_agg df key = Ok out -> In key ["region"; "carrier"; "tech"].
Proof.
  intros Hc H; unfold df_agg in H; rewrite Hc in H; cbn [bind agg_options] in H.
  destruct (str_in key ["region"; "carrier"; "tech"]) eqn:Hk; [|discriminate].
  apply str_in_In; exact Hk.
Qed.

(** Table of aggregated scalars: the cells of one row that do not come from
    the summed values. *)
Definition agg_scalar_row_ok (df : frame) (key : string) (r : row) : Prop :=
  r "name" = VStr ("Aggregated by " ++ key) /\ r "var_unit" = VStr "-" /\
  r "id_scal" = VNone /\ r "reference" = VNone /\ r "comment" = VNone /\
  (exists r0, In r0 (rows df) /\ r "scenario" = r0 "scenario") /\
  (exists r0, In r0 (rows df) /\ r key = r0 key) /\
  forall c, In c ["region"; "carrier"; "tech"] -> c <> key -> r c = VStr "All".

(** X11.  Every row df_agg emits for a scalar table is named
    "Aggregated by <key>", has var_unit "-", no id_scal, reference or
    comment, a scenario and a key value taken from the input table, and
    "All" in the two columns among region, carrier and tech other than the
    key. *)
Theorem df_agg_scalar_rows (df : frame) (key : string) (out : frame) :
  classify df = Ok Scalars -> df_agg df key = Ok out ->
  Forall (agg_scalar_row_ok df key) (rows out).
Proof.
  intros Hc H; pose proof (df_agg_scalars_key df key out Hc H) as Hk.
  apply (df_agg_scalars_ok df key out Hc Hk) in H; destruct H as [_ H].
  refine (agg_scalar_scenarios_rows _ _ _ _ _ _ _ _ (Forall_nil (agg_scalar_row_ok df key) : Forall _ (rows (mk_frame (columns df) []))) H).
  intros sc ki d kv Hsc Hki _ _.
  apply dedup_aux_incl, in_map_iff in Hsc; destruct Hsc as (r1 & Hr1 & Hin1).
  apply dedup_aux_incl, in_map_iff in Hki; destruct Hki as (r2 & Hr2 & Hin2).
  destruct Hk as [<-|[<-|[<-|[]]]];
    (split; [reflexivity|split; [reflexivity|split; [reflexivity|split; [reflexivity|
     split; [reflexivity|split; [exists r1; split; [exact Hin1 | symmetry; exact Hr1]|
     split; [exists r2; split; [exact Hin2 | symmetry; exact Hr2]|]]]]]]]);
    intros c Hc' Hne; simpl in Hc'; destruct Hc' as [<-|[<-|[<-|[]]]];
    solve [reflexivity | congruence].
Qed.

Lemma df_agg_scalar_rows_witness :
  match df_agg sample_scalars "tech" with
  | Ok out => Forall (agg_scalar_row_ok sample_scalars "tech") (rows out)
  | Err _ => False
  end.
Proof.
  destruct (df_agg sample_scalars "tech") as [out|e] eqn:E.
  - exact (df_agg_scalar_rows sample_scalars "tech" out eq_refl E).
  - vm_compute in E; discriminate E.
Defined.

Lemma dict_set_in k v d kv : In kv (dict_set k v d) -> In kv d \/ fst kv = k.
Proof.
  induction d as [|[k' v'] d IH]; simpl.
  - intros [<-|[]]; right; reflexivity.
  - destruct (String.eqb_spec k k') as [->|_]; simpl.
    + intros [<-|H]; [right; reflexivity | left; right; exact H].
    + intros [<-|H]; [left; left; reflexivity|].
      destruct (IH H) as [H'|H']; [left; right; exact H' | right; exact H'].
Qed.

Lemma ensure_in k d kv : In kv (ensure k d) -> In kv d \/ fst kv = k.
Proof. unfold ensure; destruct (dict_get k d); [left; exact H | apply dict_set_in]. Qed.

Lemma update_in k op v d d' kv : update k op v d = Ok d' -> In kv d' -> In kv d \/ fst kv = k.
Proof.
  unfold update; destruct (dict_get k d); [|discriminate].
  destruct (op v0 v); simpl; [|discriminate].
  intros [= <-]; apply dict_set_in.
Qed.

Lemma ensure_update_in k op v d d' kv :
  update k op v (ensure k d) = Ok d' -> In kv d' -> In kv d \/ fst kv = k.
Proof.
  intros H Hin; destruct (update_in _ _ _ _ _ _ H Hin) as [H1|H1]; [|right; exact H1].
  exact (ensure_in _ _ _ H1).
Qed.

Lemma signed_in df r k vn d d' kv : signed df r k vn d = Ok d' -> In kv d' -> In kv d \/ fst kv = k.
Proof.
  unfold signed.
  destruct (cell_contains "in" vn) as [[]|e]; cbn [bind]; [| |discriminate].
  - destruct (cell df "var_value" r) as [v|e]; cbn [bind]; [apply ensure_update_in | discriminate].
  - destruct (cell_contains "out" vn) as [[]|e]; cbn [bind]; [| |discriminate].
    + destruct (cell df "var_value" r) as [v|e]; cbn [bind]; [apply ensure_update_in | discriminate].
    + intros [= <-]; apply ensure_in.
Qed.

(** The variable names scalar aggregation can produce. *)
Definition agg_var_name (k : string) : Prop :=
  k = "capacity" \/ k = "costs" \/ k = "invest" \/ k = "losses" \/ exists s, k = ("flow_" ++ s)%string.

Lemma agg_scalar_row_in df key r d d' kv :
  agg_scalar_row df key r d = Ok d' -> In kv d' -> In kv d \/ agg_var_name (fst kv).
Proof.
  unfold agg_scalar_row, agg_var_name.
  destruct (cell df "var_name" r) as [vn|e]; cbn [bind]; [|discriminate].
  destruct (cell_contains "capacity" vn) as [[]|e]; cbn [bind]; [| |discriminate].
  { destruct (cell df "var_value" r) as [v|e]; cbn [bind]; [|discriminate].
    intros H Hin; destruct (ensure_update_in _ _ _ _ _ _ H Hin); auto. }
  destruct (cell_contains "flow" vn) as [[]|e]; cbn [bind]; [| |discriminate].
  { destruct (as_str vn) as [s|e]; cbn [bind]; [|discriminate].
    destruct (py_index (split_on "_" s) 2) as [ec|e]; cbn [bind]; [|discriminate].
    destruct (negb (contains "carrier" key) && negb (contains "tech" key)); cbn [bind].
    - intros H Hin; destruct (signed_in _ _ _ _ _ _ _ H Hin) as [H1|H1]; [left; exact H1|].
      right; do 4 right; exists ec; exact H1.
    - destruct (cell df "carrier" r) as [c|e]; cbn [bind]; [|discriminate].
      destruct (as_str c) as [c'|e]; cbn [bind]; [|discriminate].
      intros H Hin; destruct (signed_in _ _ _ _ _ _ _ H Hin) as [H1|H1]; [left; exact H1|].
      right; do 4 right; eexists; exact H1. }
  destruct (cell_contains "costs" vn) as [[]|e]; cbn [bind]; [| |discriminate].
  { intros H Hin; destruct (signed_in _ _ _ _ _ _ _ H Hin); auto. }
  destruct (cell_contains "invest" vn) as [[]|e]; cbn [bind]; [| |discriminate].
  { intros H Hin; destruct (signed_in _ _ _ _ _ _ _ H Hin); auto. }
  destruct (cell_contains "losses" vn) as [[]|e]; cbn [bind]; [| |discriminate].
  { destruct (cell df "var_value" r) as [v|e]; cbn [bind]; [|discriminate].
    intros H Hin; destruct (ensure_update_in _ _ _ _ _ _ H Hin); auto 6. }
  discriminate.
Qed.

Lemma agg_scalar_rows_in df key sc ki rs d d' kv :
  agg_scalar_rows df key sc ki rs d = Ok d' -> In kv d' -> In kv d \/ agg_var_name (fst kv).
Proof.
  revert d; induction rs as [|r rs IH]; simpl; intros d.
  - intros [= <-]; left; assumption.
  - destruct (cell df "scenario" r) as [s|e]; cbn [bind]; [|discriminate].
    destruct (py_eq s sc); cbn [bind].
    + destruct (cell df key r) as [k|e]; cbn [bind]; [|discriminate].
      destruct (py_eq k ki); [|exact (IH d)].
      destruct (agg_scalar_row df key r d) as [d1|e] eqn:E; cbn [bind]; [|discriminate].
      intros H Hin; destruct (IH d1 H Hin) as [H1|H1]; [|right; exact H1].
      exact (agg_scalar_row_in _ _ _ _ _ _ E H1).
    + exact (IH d).
Qed.

(** X12.  The var_name of every row df_agg emits for a scalar table is one
    of "capacity", "costs", "invest", "losses", or starts with "flow_". *)
Theorem df_agg_scalar_var_names (df : frame) (key : string) (out : frame) :
  classify df = Ok Scalars -> df_agg df key = Ok out ->
  Forall (fun r => exists k, r "var_name" = VStr k /\ agg_var_name k) (rows out).
Proof.
  intros Hc H; pose proof (df_agg_scalars_key df key out Hc H) as Hk.
  apply (df_agg_scalars_ok df key out Hc Hk) in H; destruct H as [_ H].
  refine (agg_scalar_scenarios_rows _ _ _ _ _ _ _ _
            (Forall_nil _ : Forall _ (rows (mk_frame (columns df) []))) H).
  intros sc ki d kv _ _ Hd Hkv.
  destruct (agg_scalar_rows_in _ _ _ _ _ _ _ _ Hd Hkv) as [[]|Hn].
  exists (fst kv); split; [|exact Hn].
  unfold scalar_new_row.
  destruct (String.eqb key "region"); [|destruct (String.eqb key "carrier")]; reflexivity.
Qed.

Lemma df_agg_scalar_var_names_witness :
  match df_agg sample_scalars "region" with
  | Ok out => Forall (fun r => exists k, r "var_name" = VStr k /\ agg_var_name k) (rows out)
  | Err _ => False
  end.
Proof.
  destruct (df_agg sample_scalars "region") as [out|e] eqn:E.
  - exact (df_agg_scalar_var_names sample_scalars "region" out eq_refl E).
  - vm_compute in E; discriminate E.
Defined.

(** ** df_agg, capacities (lines 513-520) *)

(** Rows of scalars that are capacities with a number as value. *)
Definition capacity_rows (rs : list row) : bool :=
  forallb (fun r => match r "var_name", r "var_value" with
                    | VStr s, VNum _ => contains "capacity" s
                    | _, _ => false
                    end) rs.

Definition value_num (v : value) : Z := match v with VNum z => z | _ => 0 end.

(** The rows of scenario [sc] and key value [ki], as the row loop tests them. *)
Definition group_rows (key : string) (sc ki : value) (rs : list row) : list row :=
  filter (fun r => py_eq (r "scenario") sc && py_eq (r key) ki) rs.

Definition capacity_sum (key : string) (sc ki : value) (rs : list row) : Z :=
  fold_right Z.add 0 (map (fun r => value_num (r "var_value")) (group_rows key sc ki rs)).

Section Capacities.
Variables (df : frame) (key : string) (sc ki : value).
Hypothesis Hcols : forall c, In c ["scenario"; "var_name"; "var_value"; key] -> str_in c (columns df) = true.
Hypothesis Hsmall : forall r, In r (rows df) ->
  Z.of_nat (length (rows df)) * Z.abs (value_num (r "var_value")) <= 2 ^ 53.

Lemma capacity_row_step r d a j :
    capacity_rows [r] = true -> In r (rows df) -> ensure "capacity" d = [("capacity", VNum a)] ->
    Z.of_nat (length (rows df)) * Z.abs a <= Z.of_nat j * 2 ^ 53 -> (S j <= length (rows df))%nat ->
    agg_scalar_row df key r d =
      Ok [("capacity", VNum (a + value_num (r "var_value")))].
  Proof.
    intros Hcap Hr Hd Ha Hj.
    assert (Hz := Hsmall r Hr).
    revert Hcap; unfold capacity_rows; simpl; rewrite andb_true_r.
    unfold agg_scalar_row, cell; rewrite !Hcols by (simpl; tauto); cbn [bind].
    destruct (r "var_name") as [s| | | |]; try discriminate.
    destruct (r "var_value") as [| z| | |]; try discriminate.
    cbn [value_num] in Hz |- *.
    intros Hs; cbn [cell_contains bind]; rewrite Hs, Hd; cbn [update dict_get String.eqb bind].
    unfold update; simpl dict_get; cbn [bind py_add].
    rewrite (exact_of_within (length (rows df)) j a ltac:(lia) ltac:(lia) Ha).
    rewrite (exact_of_within (length (rows df)) 1 z ltac:(lia) ltac:(lia) ltac:(simpl Z.of_nat; lia)).
    rewrite (exact_of_within (length (rows df)) (S j) (a + z) ltac:(lia) ltac:(lia)
               (within_sum _ j a z _ Ha ltac:(simpl Z.of_nat; lia) (Z.abs_triangle a z))).
    reflexivity.
  Qed.

Lemma capacity_rows_from rs a j :
    capacity_rows rs = true -> incl rs (rows df) ->
    Z.of_nat (length (rows df)) * Z.abs a <= Z.of_nat j * 2 ^ 53 ->
    (j + length rs <= length (rows df))%nat ->
    agg_scalar_rows df key sc ki rs [("capacity", VNum a)] =
      Ok [("capacity", VNum (a + capacity_sum key sc ki rs))].
  Proof.
    revert a j; induction rs as [|r rs IH]; intros a j Hrs Hincl Ha Hj.
    - simpl; rewrite Z.add_0_r; reflexivity.
    - unfold capacity_rows in Hrs; simpl in Hrs; apply andb_true_iff in Hrs as [Hr Hrs].
      assert (Hin : In r (rows df)) by (apply Hincl; left; reflexivity).
      assert (Hincl' : incl rs (rows df)) by (intros x Hx; apply Hincl; right; exact Hx).
      cbn [length] in Hj.
      unfold capacity_sum, group_rows; cbn [agg_scalar_rows filter].
      unfold cell at 1; rewrite Hcols by (simpl; tauto); cbn [bind].
      destruct (py_eq (r "scenario") sc); cbn [bind andb].
      + unfold cell; rewrite Hcols by (simpl; tauto); cbn [bind].
        destruct (py_eq (r key) ki).
        * rewrite (capacity_row_step r [("capacity", VNum a)] a j) by
            (first [unfold capacity_rows; simpl; rewrite Hr; reflexivity | assumption | reflexivity | lia]).
          cbn [bind].
          rewrite (IH (a + value_num (r "var_value")) (S j) Hrs Hincl'); [| |lia].
          { unfold capacity_sum, group_rows; simpl; rewrite Z.add_assoc; reflexivity. }
          apply (within_sum _ j a (value_num (r "var_value")) _ Ha); [simpl Z.of_nat; specialize (Hsmall r Hin); lia|].
          apply Z.abs_triangle.
        * apply (IH a j Hrs Hincl' Ha); lia.
      + apply (IH a j Hrs Hincl' Ha); lia.
  Qed.

Lemma capacity_rows_start rs :
    capacity_rows rs = true -> incl rs (rows df) -> (length rs <= length (rows df))%nat ->
    agg_scalar_rows df key sc ki rs [] =
      Ok (match group_rows key sc ki rs with
          | [] => []
          | _ => [("capacity", VNum (capacity_sum key sc ki rs))]
          end).
  Proof.
    induction rs as [|r rs IH]; intros Hrs Hincl Hlen; [reflexivity|].
    unfold capacity_rows in Hrs; simpl in Hrs; apply andb_true_iff in Hrs as [Hr Hrs].
    assert (Hin : In r (rows df)) by (apply Hincl; left; reflexivity).
    assert (Hincl' : incl rs (rows df)) by (intros x Hx; apply Hincl; right; exact Hx).
    cbn [length] in Hlen.
    unfold capacity_sum, group_rows; cbn [agg_scalar_rows filter].
    unfold cell at 1; rewrite Hcols by (simpl; tauto); cbn [bind].
    destruct (py_eq (r "scenario") sc); cbn [bind andb].
    - unfold cell; rewrite Hcols by (simpl; tauto); cbn [bind].
      destruct (py_eq (r key) ki).
      + rewrite (capacity_row_step r [] 0 0) by
          (first [unfold capacity_rows; simpl; rewrite Hr; reflexivity | assumption | reflexivity | lia]).
        cbn [bind]; rewrite (capacity_rows_from rs (0 + value_num (r "var_value")) 1 Hrs Hincl'); [| |lia].
        { unfold capacity_sum, group_rows; simpl; reflexivity. }
        specialize (Hsmall r Hin); simpl Z.of_nat; lia.
      + apply IH; [exact Hrs | exact Hincl' | lia].
    - apply IH; [exact Hrs | exact Hincl' | lia].
  Qed.
End Capacities.

Lemma map_flat_map {A B C} (f : B -> C) (g : A -> list B) (l : list A) :
  map f (flat_map g l) = flat_map (fun x => map f (g x)) l.
Proof. induction l as [|x l IH]; simpl; [reflexivity|]; rewrite map_app, IH; reflexivity. Qed.

(** The row df_agg emits for the capacities of one scenario and key value. *)
Definition capacity_out_rows (df : frame) (key : string) (sc ki : value) : list row :=
  match group_rows key sc ki (rows df) with
  | [] => []
  | _ => [row_of (scalar_new_row key sc ki ("capacity", VNum (capacity_sum key sc ki (rows df))))]
  end.

Lemma agg_scalar_keys_capacity df key sc keys out :
  (forall c, In c ["scenario"; "var_name"; "var_value"; key] -> str_in c (columns df) = true) ->
  (forall r, In r (rows df) ->
     Z.of_nat (length (rows df)) * Z.abs (value_num (r "var_value")) <= 2 ^ 53) ->
  capacity_rows (rows df) = true ->
  exists out', agg_scalar_keys df key sc keys out = Ok out' /\
    rows out' = (rows out ++ flat_map (capacity_out_rows df key sc) keys)%list.
Proof.
  intros Hcols Hsmall Hcap; revert out; induction keys as [|ki ks IH]; intros out; simpl.
  - exists out; split; [reflexivity | symmetry; apply app_nil_r].
  - rewrite (capacity_rows_start df key sc ki Hcols Hsmall (rows df) Hcap (incl_refl _) (le_n _));
      cbn [bind].
    unfold capacity_out_rows at 1.
    destruct (group_rows key sc ki (rows df)) as [|r0 g]; simpl.
    + destruct (IH out) as (o & Ho & Hr); exists o; split; [exact Ho | exact Hr].
    + destruct (IH (append_dict out (scalar_new_row key sc ki
                   ("capacity", VNum (capacity_sum key sc ki (rows df)))))) as (o & Ho & Hr).
      exists o; split; [exact Ho|]; rewrite Hr; simpl; rewrite <- app_assoc; reflexivity.
Qed.

Lemma agg_scalar_scenarios_capacity df key scs keys out :
  (forall c, In c ["scenario"; "var_name"; "var_value"; key] -> str_in c (columns df) = true) ->
  (forall r, In r (rows df) ->
     Z.of_nat (length (rows df)) * Z.abs (value_num (r "var_value")) <= 2 ^ 53) ->
  capacity_rows (rows df) = true ->
  exists out', agg_scalar_scenarios df key scs keys out = Ok out' /\
    rows out' = (rows out ++ flat_map (fun sc => flat_map (capacity_out_rows df key sc) keys) scs)%list.
Proof.
  intros Hcols Hsmall Hcap; revert out; induction scs as [|sc scs IH]; intros out; simpl.
  - exists out; split; [reflexivity | symmetry; apply app_nil_r].
  - destruct (agg_scalar_keys_capacity df key sc keys out Hcols Hsmall Hcap) as (o1 & E1 & R1).
    rewrite E1; cbn [bind]; destruct (IH o1) as (o & Ho & Hr).
    exists o; split; [exact Ho|]; rewrite Hr, R1, app_assoc; reflexivity.
Qed.

(** X13.  For a scalar table whose rows are all capacities with numeric
    values, whose scenario and key cells are not lists, and whose values,
    times the number of rows, have magnitude at most 2^53 (so that every
    partial sum is exact in int64 and float64 alike), df_agg by region,
    carrier or tech emits, for each scenario and then each key value (in
    order of first appearance), one "capacity" row whose value is the sum
    of the values of the rows of that scenario and key value, and no row for
    a pair that has no rows. *)
Theorem df_agg_capacities (df : frame) (key : string) :
  classify df = Ok Scalars -> In key ["region"; "carrier"; "tech"] ->
  capacity_rows (rows df) = true ->
  hashable_groups df key = true -> small_column df "var_value" = true ->
  exists out, df_agg df key = Ok out /\
    map (fun r => (r "scenario", r key, r "var_name", r "var_value")) (rows out) =
    flat_map (fun sc => flat_map (fun ki =>
                match group_rows key sc ki (rows df) with
                | [] => []
                | _ => [(sc, ki, VStr "capacity", VNum (capacity_sum key sc ki (rows df)))]
                end) (dedup_aux [] (map (fun r => r key) (rows df))))
             (dedup_aux [] (map (fun r => r "scenario") (rows df))).
Proof.
  intros Hc Hk Hcap Hh Hsm; rewrite (df_agg_scalars_eq df key Hc Hk Hh).
  assert (Hcols : forall c, In c ["scenario"; "var_name"; "var_value"; key] -> str_in c (columns df) = true).
  { intros c Hin; apply str_in_In, (classify_scalars_columns df c Hc).
    unfold required_sc; simpl in Hin, Hk |- *; intuition congruence. }
  assert (Hsmall : forall r, In r (rows df) ->
            Z.of_nat (length (rows df)) * Z.abs (value_num (r "var_value")) <= 2 ^ 53).
  { intros r Hr; unfold small_column in Hsm; rewrite forallb_forall in Hsm; specialize (Hsm r Hr).
    destruct (r "var_value"); cbn [value_num value_within] in *; try (apply Z.leb_le; exact Hsm); lia. }
  destruct (agg_scalar_scenarios_capacity df key (dedup_aux [] (map (fun r => r "scenario") (rows df)))
              (dedup_aux [] (map (fun r => r key) (rows df))) (mk_frame (columns df) []) Hcols Hsmall Hcap)
    as (out & Ho & Hr).
  exists out; split; [exact Ho|]; rewrite Hr; cbn [rows app].
  rewrite map_flat_map; apply flat_map_ext; intros sc.
  rewrite map_flat_map; apply flat_map_ext; intros ki.
  unfold capacity_out_rows; destruct (group_rows key sc ki (rows df)); [reflexivity|].
  simpl; f_equal.
  destruct Hk as [<-|[<-|[<-|[]]]]; reflexivity.
Qed.

Lemma df_agg_capacities_witness :
  classify sample_scalars = Ok Scalars /\ In "region" ["region"; "carrier"; "tech"] /\
  capacity_rows (rows sample_scalars) = true /\
  hashable_groups sample_scalars "region" = true /\ small_column sample_scalars "var_value" = true /\
  exists out, df_agg sample_scalars "region" = Ok out /\
    map (fun r => (r "scenario", r "region", r "var_name", r "var_value")) (rows out) =
    flat_map (fun sc => flat_map (fun ki =>
                match group_rows "region" sc ki (rows sample_scalars) with
                | [] => []
                | _ => [(sc, ki, VStr "capacity", VNum (capacity_sum "region" sc ki (rows sample_scalars)))]
                end) (dedup_aux [] (map (fun r => r "region") (rows sample_scalars))))
             (dedup_aux [] (map (fun r => r "scenario") (rows sample_scalars))).
Proof.
  assert (Hc : classify sample_scalars = Ok Scalars) by reflexivity.
  assert (Hk : In "region" ["region"; "carrier"; "tech"]) by (simpl; tauto).
  assert (Hcap : capacity_rows (rows sample_scalars) = true) by reflexivity.
  assert (Hh : hashable_groups sample_scalars "region" = true) by reflexivity.
  assert (Hs : small_column sample_scalars "var_value" = true) by (vm_compute; reflexivity).
  split; [exact Hc|split; [exact Hk|split; [exact Hcap|split; [exact Hh|split; [exact Hs|]]]]].
  exact (df_agg_capacities sample_scalars "region" Hc Hk Hcap Hh Hs).
Defined.

(** ** unstack_timeseries after stack_timeseries (lines 773-901) *)

Lemma date_range_arange t f m :
  0 < f -> date_range t (t + Z.of_nat m * f) f = Ok (arange t f (S m)).
Proof.
  intros Hf; unfold date_range.
  replace (0 <? f) with true by (symmetry; apply Z.ltb_lt; exact Hf).
  replace (t <=? t + Z.of_nat m * f) with true by (symmetry; apply Z.leb_le; nia).
  replace ((t + Z.of_nat m * f - t) / f) with (Z.of_nat m)
    by (replace (t + Z.of_nat m * f - t) with (Z.of_nat m * f) by lia; rewrite Z.div_mul by lia; reflexivity).
  rewrite Nat2Z.id, Nat.add_1_r; reflexivity.
Qed.

Lemma map_same_cell {A} (rs : list row) (c : string) (l : list A) (v : value) :
  map (fun r => r c) rs = map (fun _ => v) l -> forall r, In r rs -> r c = v.
Proof.
  intros H r Hr; assert (Hin : In (r c) (map (fun r => r c) rs)) by (apply (in_map (fun r => r c)), Hr).
  rewrite H in Hin; apply in_map_iff in Hin; destruct Hin as (x & <- & _); reflexivity.
Qed.

Lemma combine_fst_snd {A B} (l : list (A * B)) : combine (map fst l) (map snd l) = l.
Proof. induction l as [|[a b] l IH]; simpl; [reflexivity | rewrite IH; reflexivity]. Qed.

Lemma np_array_cols (cols : list (value * list num)) n :
  cols <> [] -> Forall (fun p => length (snd p) = n) cols ->
  Forall (fun p => forallb num_exact (snd p) = true) cols ->
  np_array (map (fun p => VSeries (snd p)) cols) = Ok (map snd cols).
Proof.
  intros Hne Hl He; destruct cols as [|p0 cols]; [congruence|].
  replace (map (fun p => VSeries (snd p)) (p0 :: cols)) with (map VSeries (snd p0 :: map snd cols))
    by (simpl; rewrite map_map; reflexivity).
  change (map snd (p0 :: cols)) with (snd p0 :: map snd cols).
  apply np_array_lists.
  - apply Forall_cons_iff in Hl; destruct Hl as [H0 Hl'].
    apply Forall_forall; intros xs Hxs; apply in_map_iff in Hxs; destruct Hxs as (p & <- & Hp).
    rewrite Forall_forall in Hl'; rewrite (Hl' p Hp), H0; reflexivity.
  - change (snd p0 :: map snd cols) with (map snd (p0 :: cols)).
    apply Forall_map; exact He.
Qed.

(** A wide table of two integer columns over four evenly spaced dates, with
    its frequency unset. *)
Definition four_dates_wide : wide :=
  mk_wide (DatetimeIndex (arange 0 15 4) None)
    [(VStr "a", [Num 1; Num 2; Num 3; Num 4]); (VStr "b", [Num 5; Num 6; Num 7; Num 8])].

(** X14.  Stacking then unstacking a wide table on an evenly spaced
    ascending index of at least three dates, with at least one column, all
    of the index's length, with distinct names none of which is a list, and
    with numbers that float64 holds exactly ([|z| <= 2^53]; NaN allowed, so
    that the array built by unstacking, whatever its dtype, keeps them),
    gives back the table, its columns in order and their numbers unchanged,
    with the frequency attribute set to the step (when the attribute was
    unset or already the step). *)
Theorem unstack_stack_roundtrip (t f : Z) (m : nat) (fr : option Z) (cols : list (value * list num)) :
  0 < f -> (2 <= m)%nat -> cols <> [] ->
  Forall (fun p => length (snd p) = S m) cols -> NoDup (map fst cols) ->
  forallb hashable (map fst cols) = true ->
  Forall (fun p => forallb num_exact (snd p) = true) cols ->
  fr = None \/ fr = Some f ->
  exists out, stack_timeseries (mk_wide (DatetimeIndex (arange t f (S m)) fr) cols) = Ok out /\
    unstack_timeseries out = Ok (mk_wide (DatetimeIndex (arange t f (S m)) (Some f)) cols).
Proof.
  intros Hf Hm Hne Hlen Hnd Hh Hex Hfr.
  destruct (stack_arange t f m fr cols Hf Hm Hlen Hnd) as (out & Est & Hc & Hv).
  replace (match fr with Some g => g | None => f end) with f in Hv by (destruct Hfr as [->| ->]; reflexivity).
  exists out; split; [exact Est|].
  assert (Hproj : forall (g : value * value * value * value * value -> value) (h : (string -> value) -> value),
            (forall r, g (stack_view r) = h r) ->
            map h (rows out) = map (fun p => g (fst p, VNum t, VNum (t + Z.of_nat m * f),
                                                 VNum f, VSeries (snd p))) cols).
  { intros g h Hg; rewrite <- (map_ext _ _ Hg), <- map_map, Hv, map_map; reflexivity. }
  assert (Hres := Hproj (fun v => let '(_, _, _, x, _) := v in x) (fun r => r "timeindex_resolution")
                   (fun r => eq_refl)).
  assert (Hstart := Hproj (fun v => let '(_, x, _, _, _) := v in x) (fun r => r "timeindex_start")
                   (fun r => eq_refl)).
  assert (Hstop := Hproj (fun v => let '(_, _, x, _, _) := v in x) (fun r => r "timeindex_stop")
                   (fun r => eq_refl)).
  assert (Hser := Hproj (fun v => let '(_, _, _, _, x) := v in x) (fun r => r "series")
                   (fun r => eq_refl)).
  assert (Hnm := Hproj (fun v => let '(x, _, _, _, _) := v in x) (fun r => r "var_name")
                   (fun r => eq_refl)).
  cbv beta iota in Hres, Hstart, Hstop, Hser, Hnm.
  destruct (rows out) as [|r0 rs] eqn:Hr.
  { destruct cols; [congruence | discriminate Hres]. }
  assert (Hin : forall c, In c stacked_cols -> In c (columns out)) by (rewrite Hc; tauto).
  assert (Hok : forall c z, map (fun r => r c) (r0 :: rs) = map (fun _ => VNum z) cols ->
                  field_ok out r0 c = true /\ r0 c = VNum z).
  { intros c z Hz; pose proof (map_same_cell _ c cols _ Hz) as Hall.
    unfold field_ok, field_consistent; rewrite Hr, (Hall r0 (or_introl eq_refl)).
    split; [|reflexivity]; apply andb_true_intro; split; [|reflexivity].
    apply forallb_forall; intros r Hr'; rewrite (Hall r Hr'); apply Z.eqb_refl. }
  destruct (Hok _ _ Hres) as [Ok1 E1]; destruct (Hok _ _ Hstart) as [Ok2 E2];
    destruct (Hok _ _ Hstop) as [Ok3 E3].
  unfold unstack_timeseries.
  rewrite (check_ok out r0 rs "timeindex_resolution" Hr (Hin "timeindex_resolution" ltac:(simpl; tauto)) Ok1),
          (check_ok out r0 rs "timeindex_start" Hr (Hin "timeindex_start" ltac:(simpl; tauto)) Ok2),
          (check_ok out r0 rs "timeindex_stop" Hr (Hin "timeindex_stop" ltac:(simpl; tauto)) Ok3); cbn [bind].
  rewrite (column_present out "series" (proj2 (str_in_In _ _) (Hin "series" ltac:(simpl; tauto)))),
          (column_present out "var_name" (proj2 (str_in_In _ _) (Hin "var_name" ltac:(simpl; tauto)))).
  rewrite Hr, Hser; cbn [bind]; rewrite (np_array_cols cols (S m) Hne Hlen Hex); cbn [bind].
  rewrite Hnm; cbn [bind].
  replace (map (fun p : value * list num => fst p) cols) with (map fst cols) by reflexivity.
  rewrite (mapM_as_label _ Hh); cbn [bind].
  rewrite E1, E2, E3; cbn [as_num bind]; rewrite date_range_arange by exact Hf; cbn [bind].
  replace (forallb (fun xs => Nat.eqb (length xs) (length (arange t f (S m)))) (map snd cols)) with true.
  - rewrite combine_fst_snd; reflexivity.
  - symmetry; rewrite forallb_map_comm; apply forallb_forall; intros p Hp.
    rewrite arange_length; apply Nat.eqb_eq; rewrite Forall_forall in Hlen; exact (Hlen p Hp).
Qed.

Lemma unstack_stack_roundtrip_witness :
  exists out, stack_timeseries four_dates_wide = Ok out /\
    unstack_timeseries out = Ok (mk_wide (DatetimeIndex (arange 0 15 4) (Some 15)) (w_columns four_dates_wide)).
Proof.
  apply (unstack_stack_roundtrip 0 15 3 None (w_columns four_dates_wide)).
  - lia.
  - lia.
  - discriminate.
  - repeat constructor.
  - repeat constructor; simpl; intuition discriminate.
  - reflexivity.
  - repeat constructor.
  - left; reflexivity.
Defined.

(** ** unstack_timeseries, edge cases (lines 852-901) *)

(** X15.  A stacked table without rows cannot be unstacked: the first
    consistency check fails, on the missing first row (IndexError) when the
    table has the resolution column, and with a KeyError otherwise. *)
Theorem unstack_no_rows (df : frame) :
  rows df = [] ->
  unstack_timeseries df =
    Err (if str_in "timeindex_resolution" (columns df) then IndexErr else KeyErr "timeindex_resolution").
Proof.
  intros Hr; unfold unstack_timeseries, check_consistency_timeindex, column.
  destruct (str_in "timeindex_resolution" (columns df)); [|reflexivity].
  rewrite Hr; reflexivity.
Qed.

Lemma unstack_no_rows_witness :
  rows (mk_frame stacked_cols []) = [] /\
  unstack_timeseries (mk_frame stacked_cols []) = Err IndexErr.
Proof.
  assert (Hr : rows (mk_frame stacked_cols []) = []) by reflexivity.
  split; [exact Hr|].
  exact (unstack_no_rows (mk_frame stacked_cols []) Hr).
Defined.

Lemma mapM_as_series_err l e : mapM as_series l = Err e -> e = ShapeErr.
Proof.
  induction l as [|v l IH]; simpl; [discriminate|].
  destruct v; cbn [as_series bind]; try (intros [= <-]; reflexivity).
  destruct (mapM as_series l); cbn [bind]; [discriminate | exact IH].
Qed.

Lemma mapM_as_series_forall2 l rs :
  mapM as_series l = Ok rs -> Forall2 (fun v xs => v = VSeries xs) l rs.
Proof.
  revert rs; induction l as [|v l IH]; simpl; intros rs.
  - intros [= <-]; constructor.
  - destruct v; cbn [as_series bind]; try discriminate.
    destruct (mapM as_series l) as [rs'|e]; cbn [bind]; [|discriminate].
    intros [= <-]; constructor; [reflexivity | apply IH; reflexivity].
Qed.

Lemma Forall2_map_lengths (l : list value) rs (g : list num -> list num) :
  (forall xs, length (g xs) = length xs) ->
  Forall2 (fun v xs => v = VSeries xs) l rs ->
  Forall2 (fun v xs => exists ys, v = VSeries ys /\ length ys = length xs) l (map g rs).
Proof.
  intros Hg H; induction H as [|v xs l rs Hv H IH]; simpl; constructor; [|exact IH].
  exists xs; split; [exact Hv | symmetry; apply Hg].
Qed.

Lemma Forall2_in_left {A B} (P : A -> B -> Prop) l1 l2 x :
  Forall2 P l1 l2 -> In x l1 -> exists y, In y l2 /\ P x y.
Proof.
  intros H; induction H as [|a b l1 l2 Hab H IH]; intros Hx; [contradiction|].
  destruct Hx as [<-|Hx]; [exists b; split; [left; reflexivity | exact Hab]|].
  destruct (IH Hx) as (y & Hy & Py); exists y; split; [right; exact Hy | exact Py].
Qed.

(** What [np.array] makes of the series cells: a one-cell table from one
    cell that is not a list, a ValueError, or one row per cell, each cell a
    list of the row's length. *)
Lemma np_array_cases vs :
  (length vs = 1%nat /\ Forall (fun v => hashable v = true) vs) \/
  np_array vs = Err ShapeErr \/
  exists arr, np_array vs = Ok arr /\
    Forall2 (fun v xs => exists ys, v = VSeries ys /\ length ys = length xs) vs arr.
Proof.
  destruct vs as [|v [|v' vs']].
  - right; right; exists []; split; [reflexivity | constructor].
  - destruct v as [s|z|l| |];
      try solve [left; split; [reflexivity | repeat constructor]].
    right; right; eexists; split; [reflexivity|].
    constructor; [|constructor]; eexists; split; [reflexivity | rewrite length_map; reflexivity].
  - right. destruct (mapM as_series (v :: v' :: vs')) as [rs|e] eqn:Em.
    + pose proof (mapM_as_series_forall2 _ _ Em) as F.
      destruct rs as [|r rs']; [inversion F|].
      unfold np_array; destruct v; cbv beta iota; rewrite Em; cbn [bind];
        (destruct (forallb (fun ys => Nat.eqb (length ys) (length r)) rs');
         [right; eexists; split; [reflexivity|]; apply Forall2_map_lengths;
          [intros zs; apply length_map | exact F]
         | left; reflexivity]).
    + rewrite (mapM_as_series_err _ _ Em) in Em.
      left; unfold np_array; destruct v; cbv beta iota; rewrite Em; reflexivity.
Qed.

(** A stacked sample whose second series is one value short. *)
Definition short_series : frame :=
  mk_frame stacked_cols [ts_row "a" 0 20 10 [1; 2; 3]; ts_row "b" 0 20 10 [4; 5]].

(** X16.  A stacked table with consistent numeric time fields (start [t],
    stop [e], resolution [f] with a valid date range) and var_names that
    are not lists fails to unstack with a shape error as soon as one series
    cell is a list whose length differs from the number of dates, or, in a
    table of at least two rows, is not a list.  (A table of one row whose
    series cell is a number becomes a one-cell table, which pandas accepts
    over an index of one date.) *)
Theorem unstack_shape_error (df : frame) (t e f : Z) (idx : list Z) :
  forallb (fun c => str_in c (columns df)) stacked_cols = true ->
  forallb (fun r => py_eq (r "timeindex_start") (VNum t) && py_eq (r "timeindex_stop") (VNum e) &&
                    py_eq (r "timeindex_resolution") (VNum f)) (rows df) = true ->
  date_range t e f = Ok idx ->
  forallb hashable (map (fun r => r "var_name") (rows df)) = true ->
  existsb (fun r => match r "series" with
                    | VSeries xs => negb (Nat.eqb (length xs) (length idx))
                    | _ => Nat.leb 2 (length (rows df))
                    end) (rows df) = true ->
  unstack_timeseries df = Err ShapeErr.
Proof.
  intros Hcols Htime Hdr Hnames Hbad.
  assert (Hin : forall c, In c stacked_cols -> In c (columns df)).
  { intros c Hc; rewrite forallb_forall in Hcols; apply str_in_In, Hcols, Hc. }
  assert (Ht : forall r, In r (rows df) ->
                 r "timeindex_start" = VNum t /\ r "timeindex_stop" = VNum e /\
                 r "timeindex_resolution" = VNum f).
  { intros r Hr; rewrite forallb_forall in Htime; specialize (Htime r Hr).
    apply andb_prop in Htime as [H12 H3]; apply andb_prop in H12 as [H1 H2].
    repeat split; apply py_eq_vnum; assumption. }
  destruct (rows df) as [|r0 rs] eqn:Hr; [discriminate|].
  assert (Hok : forall c z, (forall r, In r (r0 :: rs) -> r c = VNum z) -> field_ok df r0 c = true).
  { intros c z Hz; unfold field_ok, field_consistent; rewrite Hr, (Hz r0 (or_introl eq_refl)).
    apply andb_true_intro; split; [|reflexivity].
    apply forallb_forall; intros r Hr'; rewrite (Hz r Hr'); apply Z.eqb_refl. }
  destruct (Ht r0 (or_introl eq_refl)) as (H0s & H0e & H0f).
  unfold unstack_timeseries.
  rewrite (check_ok df r0 rs "timeindex_resolution" Hr (Hin "timeindex_resolution" ltac:(simpl; tauto))
             (Hok _ f (fun r H => proj2 (proj2 (Ht r H))))); cbn [bind].
  rewrite (check_ok df r0 rs "timeindex_start" Hr (Hin "timeindex_start" ltac:(simpl; tauto))
             (Hok _ t (fun r H => proj1 (Ht r H)))); cbn [bind].
  rewrite (check_ok df r0 rs "timeindex_stop" Hr (Hin "timeindex_stop" ltac:(simpl; tauto))
             (Hok _ e (fun r H => proj1 (proj2 (Ht r H))))); cbn [bind].
  rewrite (column_present df "series" (proj2 (str_in_In _ _) (Hin "series" ltac:(simpl; tauto)))); cbn [bind].
  rewrite Hr.
  destruct (np_array_cases (map (fun r => r "series") (r0 :: rs))) as [[Hl Hh]|[E|(arr & E & F)]].
  - destruct rs; [|discriminate Hl].
    cbn [existsb length] in Hbad; rewrite orb_false_r in Hbad.
    inversion Hh as [|? ? Hh0 _]; subst.
    destruct (r0 "series"); discriminate.
  - rewrite E; reflexivity.
  - rewrite E; cbn [bind].
    rewrite (column_present df "var_name" (proj2 (str_in_In _ _) (Hin "var_name" ltac:(simpl; tauto)))); cbn [bind].
    rewrite Hr, (mapM_as_label _ Hnames); cbn [bind].
    rewrite H0s, H0e, H0f; cbn [as_num bind]; rewrite Hdr; cbn [bind].
    replace (forallb (fun xs => Nat.eqb (length xs) (length idx)) arr) with false; [reflexivity|].
    symmetry; apply existsb_exists in Hbad; destruct Hbad as (r & Hr' & Hb).
    destruct (Forall2_in_left _ _ _ (r "series") F (in_map (fun r => r "series") _ _ Hr'))
      as (xs & Hxs & ys & Eys & Lys).
    rewrite Eys in Hb.
    apply not_true_iff_false; intros Hall; rewrite forallb_forall in Hall.
    specialize (Hall xs Hxs); apply Nat.eqb_eq in Hall.
    rewrite Lys, Hall, Nat.eqb_refl in Hb; discriminate.
Qed.

Lemma unstack_shape_error_witness :
  forallb (fun c => str_in c (columns short_series)) stacked_cols = true /\
  unstack_timeseries short_series = Err ShapeErr.
Proof.
  assert (H1 : forallb (fun c => str_in c (columns short_series)) stacked_cols = true) by reflexivity.
  split; [exact H1|].
  apply (unstack_shape_error short_series 0 20 10 [0; 10; 20] H1); reflexivity.
Defined.

(** ** df_agg, the columns of the result (lines 656-729) *)

Lemma append_dict_columns f d :
  (forall k, In k (map fst d) -> In k (columns f)) -> columns (append_dict f d) = columns f.
Proof.
  intros H; unfold append_dict; cbn [columns].
  replace (filter (fun k => negb (str_in k (columns f))) (map fst d)) with (@nil string);
    [apply app_nil_r|].
  symmetry; apply filter_none; intros k Hk; apply negb_false_iff, str_in_In, H, Hk.
Qed.

Lemma scalar_new_row_keys key sc ki kv : map fst (scalar_new_row key sc ki kv) = header_sc.
Proof.
  unfold scalar_new_row.
  destruct (String.eqb key "region"); [|destruct (String.eqb key "carrier")]; reflexivity.
Qed.

Lemma ts_new_row_keys df key ki s nr : ts_new_row df key ki s = Ok nr -> map fst nr = header_ts.
Proof.
  unfold ts_new_row.
  destruct (cell0 df "timeindex_start"); cbn [bind]; [|discriminate].
  destruct (cell0 df "timeindex_stop"); cbn [bind]; [|discriminate].
  destruct (cell0 df "timeindex_resolution"); cbn [bind]; [|discriminate].
  intros [= <-]; reflexivity.
Qed.

Lemma agg_scalar_scenarios_columns df key scs keys out out' :
  incl header_sc (columns out) ->
  agg_scalar_scenarios df key scs keys out = Ok out' -> columns out' = columns out.
Proof.
  intros Hinc; revert out Hinc; induction scs as [|sc scs IH]; simpl; intros out Hinc H.
  - injection H as <-; reflexivity.
  - destruct (agg_scalar_keys df key sc keys out) as [o|e] eqn:E; simpl in H; [|discriminate].
    assert (Ho : columns o = columns out).
    { clear H IH; revert out Hinc E; induction keys as [|ki ks IHk]; simpl; intros out Hinc E.
      - injection E as <-; reflexivity.
      - destruct (agg_scalar_rows df key sc ki (rows df) []) as [d|e] eqn:Ed; simpl in E; [|discriminate].
        assert (Hf : columns (fold_left (fun o kv => append_dict o (scalar_new_row key sc ki kv)) d out)
                     = columns out).
        { clear E Ed IHk; revert out Hinc; induction d as [|kv d IHd]; simpl; intros out Hinc;
            [reflexivity|].
          assert (Ha : columns (append_dict out (scalar_new_row key sc ki kv)) = columns out)
            by (apply append_dict_columns; rewrite scalar_new_row_keys; exact Hinc).
          rewrite IHd, Ha; [reflexivity|]. rewrite Ha; exact Hinc. }
        rewrite (IHk _ ltac:(rewrite Hf; exact Hinc) E); exact Hf. }
    rewrite (IH o ltac:(rewrite Ho; exact Hinc) H); exact Ho.
Qed.

Lemma agg_ts_keys_columns df key keys out out' :
  incl header_ts (columns out) ->
  agg_ts_keys df key keys out = Ok out' -> columns out' = columns out.
Proof.
  revert out; induction keys as [|ki ks IH]; simpl; intros out Hinc H.
  - injection H as <-; reflexivity.
  - destruct (agg_ts_rows df key ki (rows df) None) as [acc|e]; cbn [bind] in H; [|discriminate].
    destruct acc as [s|]; cbn [bind] in H; [|discriminate].
    destruct (ts_new_row df key ki s) as [nr|e] eqn:E; cbn [bind] in H; [|discriminate].
    assert (Ha : columns (append_dict out nr) = columns out)
      by (apply append_dict_columns; rewrite (ts_new_row_keys _ _ _ _ _ E); exact Hinc).
    rewrite (IH _ ltac:(rewrite Ha; exact Hinc) H); exact Ha.
Qed.

(** X17.  When the input has every column of its schema's full header,
    df_agg returns a table with exactly the input's columns: the rows it
    builds add no column. *)
Theorem df_agg_keeps_columns (df : frame) (sh : shape) (key : string) (out : frame) :
  classify df = Ok sh ->
  incl (match sh with Scalars => header_sc | TimeSeries => header_ts end) (columns df) ->
  df_agg df key = Ok out -> columns out = columns df.
Proof.
  intros Hc Hinc H; unfold df_agg in H; rewrite Hc in H; cbn [bind] in H.
  destruct (negb (str_in key (agg_options sh))); [discriminate|].
  destruct (negb (str_in key (columns df))); [discriminate|].
  destruct (column df key) as [kl|e]; cbn [bind] in H; [|discriminate].
  destruct (dedup kl) as [kl'|e]; cbn [bind] in H; [|discriminate].
  destruct sh.
  - destruct (column df "scenario") as [sl|e]; cbn [bind] in H; [|discriminate].
    destruct (dedup sl) as [sl'|e]; cbn [bind] in H; [|discriminate].
    exact (agg_scalar_scenarios_columns _ _ _ _ (mk_frame (columns df) []) _ Hinc H).
  - exact (agg_ts_keys_columns _ _ _ (mk_frame (columns df) []) _ Hinc H).
Qed.

Lemma df_agg_keeps_columns_witness :
  match df_agg sample_scalars "carrier" with
  | Ok out => columns out = columns sample_scalars
  | Err _ => False
  end.
Proof.
  destruct (df_agg sample_scalars "carrier") as [out|e] eqn:E.
  - refine (df_agg_keeps_columns sample_scalars Scalars "carrier" out eq_refl _ E).
    intros c Hc; exact Hc.
  - vm_compute in E; discriminate E.
Defined.
